(** * py-caskdb: the record codec ([format.py]) and the disk store
    ([disk_store.py]) as a shallow embedding.

    Python values are modelled as follows.
    - [int] is [Z] (unbounded).
    - [bytes] is [list byte].
    - [str] is a list of Unicode code points, [list N]; [len] of a [str]
      counts code points, [len] of a [bytes] counts bytes.
    - an exception is the [Raise] case of [result]; the state reached
      when the exception is raised is kept next to it wherever the
      source has already mutated something.
    - the disk is a finite map from file names to file contents; failures
      of the operating system other than a missing file are not modelled. *)

From Stdlib Require Import ZArith NArith Lia.
From Stdlib.Strings Require Import Byte Ascii String.
From stdpp Require Import base option list gmap.
From Equations Require Import Equations.

Local Open Scope Z_scope.

(** [inspect x] keeps the equation [x = y] when matching on [x]. *)
Definition inspect {A : Type} (x : A) : { y : A | x = y } := exist _ x eq_refl.

(** ** Python values and exceptions *)

Abbreviation bytes := (list byte).
Abbreviation pystr := (list N).

Inductive exn : Set :=
| StructError          (* struct.error *)
| UnicodeEncodeError
| UnicodeDecodeError
| FileNotFoundError
| OSError.

Inductive result (A : Type) : Type :=
| Ok (a : A)
| Raise (e : exn).
Arguments Ok {A} a.
Arguments Raise {A} e.

#[global] Instance result_ret : MRet result := λ A a, Ok a.
#[global] Instance result_bind : MBind result := λ A B f r,
  match r with
  | Ok a => f a
  | Raise e => Raise e
  end.

(** [len(x)] as a Python [int]. *)
Definition len {A} (l : list A) : Z := Z.of_nat (length l).

(** Slices [data[:n]] and [data[n:]] for a literal [n >= 0]. *)
Definition slice_to {A} (n : nat) (data : list A) : list A := take n data.
Definition slice_from {A} (n : nat) (data : list A) : list A := drop n data.

(** ** Bytes and 32-bit fields *)

Definition byte_of_N (n : N) : byte :=
  match Byte.of_N (n mod 256)%N with
  | Some b => b
  | None => x00
  end.

Definition byte_of_Z (z : Z) : byte := byte_of_N (Z.to_N (z mod 256)).
Definition Z_of_byte (b : byte) : Z := Z.of_N (Byte.to_N b).

(** The byte order of the platform: the format strings of the program
    carry no byte-order prefix, so [struct] uses the native one. *)
Inductive byteorder : Set := Little | Big.

(** ** The [struct] module, for the format codes the program uses

    ["I"] is a native [unsigned int], four bytes; ["<n>s"] is a field of
    [n] raw bytes.  The formats of the program (["III"], ["<k>s<v>s"],
    ["<n>s"]) need no alignment padding in native mode, so none is
    modelled. *)

Inductive fmt_code : Set :=
| FmtI
| FmtS (count : Z).

Inductive sval : Set :=
| VInt (z : Z)
| VBytes (b : bytes).

Definition code_size (c : fmt_code) : Z :=
  match c with
  | FmtI => 4
  | FmtS n => n
  end.

Definition fmt_ok (c : fmt_code) : bool :=
  match c with
  | FmtI => true
  | FmtS n => 0 <=? n
  end.

Definition calcsize (fmt : list fmt_code) : Z :=
  foldr (λ c acc, code_size c + acc) 0 fmt.

Definition UINT_MAX : Z := 4294967295.

Section Codec.

Variable order : byteorder.

Definition native (bs : bytes) : bytes :=
  match order with
  | Little => bs
  | Big => rev bs
  end.

(** The four bytes of an in-range [unsigned int]. *)
Definition pack_I (z : Z) : bytes :=
  native [byte_of_Z z; byte_of_Z (z / 256);
          byte_of_Z (z / 65536); byte_of_Z (z / 16777216)].

Definition unpack_I (bs : bytes) : Z :=
  match native bs with
  | [b0; b1; b2; b3] =>
      Z_of_byte b0 + 256 * Z_of_byte b1
      + 65536 * Z_of_byte b2 + 16777216 * Z_of_byte b3
  | _ => 0
  end.

(** An ["<n>s"] field: the argument is cut to [n] bytes, or padded with
    null bytes up to [n]. *)
Definition pack_s (n : Z) (b : bytes) : bytes :=
  take (Z.to_nat n) b ++ replicate (Z.to_nat n - length b)%nat x00.

(** [struct.pack(fmt, *args)]. *)
Fixpoint struct_pack (fmt : list fmt_code) (args : list sval) : result bytes :=
  match fmt, args with
  | [], [] => Ok []
  | FmtI :: fmt', VInt z :: args' =>
      if (0 <=? z) && (z <=? UINT_MAX)
      then rest ← struct_pack fmt' args'; Ok (pack_I z ++ rest)
      else Raise StructError
  | FmtS n :: fmt', VBytes b :: args' =>
      if 0 <=? n
      then rest ← struct_pack fmt' args'; Ok (pack_s n b ++ rest)
      else Raise StructError
  | _, _ => Raise StructError
  end.

Fixpoint unpack_fields (fmt : list fmt_code) (data : bytes) : list sval :=
  match fmt with
  | [] => []
  | FmtI :: fmt' => VInt (unpack_I (take 4 data)) :: unpack_fields fmt' (drop 4 data)
  | FmtS n :: fmt' =>
      VBytes (take (Z.to_nat n) data) :: unpack_fields fmt' (drop (Z.to_nat n) data)
  end.

(** [struct.unpack(fmt, data)]: the buffer must have exactly the size the
    format calls for. *)
Definition struct_unpack (fmt : list fmt_code) (data : bytes) : result (list sval) :=
  if forallb fmt_ok fmt && (len data =? calcsize fmt)
  then Ok (unpack_fields fmt data)
  else Raise StructError.

(** ** UTF-8: [str.encode("utf-8")] and [bytes.decode("utf-8")], strict *)

Definition cont (n : N) : byte := byte_of_N (N.lor 128 (N.land n 63)).

Definition utf8_encode_char (c : N) : result bytes :=
  if (c <? 128)%N then Ok [byte_of_N c]
  else if (c <? 2048)%N then
    Ok [byte_of_N (N.lor 192 (N.shiftr c 6)); cont c]
  else if (c <? 65536)%N then
    if (55296 <=? c)%N && (c <=? 57343)%N then Raise UnicodeEncodeError
    else Ok [byte_of_N (N.lor 224 (N.shiftr c 12)); cont (N.shiftr c 6); cont c]
  else if (c <? 1114112)%N then
    Ok [byte_of_N (N.lor 240 (N.shiftr c 18)); cont (N.shiftr c 12);
        cont (N.shiftr c 6); cont c]
  else Raise UnicodeEncodeError.

Fixpoint utf8_encode (s : pystr) : result bytes :=
  match s with
  | [] => Ok []
  | c :: s' =>
      b ← utf8_encode_char c;
      rest ← utf8_encode s';
      Ok (b ++ rest)
  end.

Definition in_range (lo hi : N) (b : byte) : bool :=
  ((lo <=? Byte.to_N b) && (Byte.to_N b <=? hi))%N.

Definition is_cont (b : byte) : bool := in_range 128 191 b.

Definition low6 (b : byte) : N := N.land (Byte.to_N b) 63.

(** One decoding step: the code point and the bytes left, or [None] on an
    ill-formed or cut sequence.  Over-long forms, surrogates and code
    points above U+10FFFF are ill-formed. *)
Definition utf8_decode_char (data : bytes) : option (N * bytes) :=
  match data with
  | [] => None
  | b0 :: r0 =>
      let n0 := Byte.to_N b0 in
      if (n0 <? 128)%N then Some (n0, r0)
      else if in_range 194 223 b0 then
        match r0 with
        | b1 :: r1 =>
            if is_cont b1
            then Some (N.lor (N.shiftl (N.land n0 31) 6) (low6 b1), r1)
            else None
        | _ => None
        end
      else if in_range 224 239 b0 then
        match r0 with
        | b1 :: b2 :: r2 =>
            let lo := if (n0 =? 224)%N then 160%N else 128%N in
            let hi := if (n0 =? 237)%N then 159%N else 191%N in
            if in_range lo hi b1 && is_cont b2
            then Some (N.lor (N.shiftl (N.land n0 15) 12)
                        (N.lor (N.shiftl (low6 b1) 6) (low6 b2)), r2)
            else None
        | _ => None
        end
      else if in_range 240 244 b0 then
        match r0 with
        | b1 :: b2 :: b3 :: r3 =>
            let lo := if (n0 =? 240)%N then 144%N else 128%N in
            let hi := if (n0 =? 244)%N then 143%N else 191%N in
            if in_range lo hi b1 && is_cont b2 && is_cont b3
            then Some (N.lor (N.shiftl (N.land n0 7) 18)
                        (N.lor (N.shiftl (low6 b1) 12)
                          (N.lor (N.shiftl (low6 b2) 6) (low6 b3))), r3)
            else None
        | _ => None
        end
      else None
  end.

(** [bytes.decode("utf-8")]: every step consumes at least one byte. *)
Equations? utf8_decode (data : bytes) : result pystr by wf (length data) lt :=
  utf8_decode [] := Ok [];
  utf8_decode (b :: r) with inspect (utf8_decode_char (b :: r)) := {
    | exist _ None _ => Raise UnicodeDecodeError
    | exist _ (Some (c, rest)) Hstep with utf8_decode rest := {
        | Ok s => Ok (c :: s)
        | Raise e => Raise e } }.
Proof.
  revert Hstep. unfold utf8_decode_char.
  repeat first
    [ progress (intros [= <- <-]; simpl; lia)
    | discriminate
    | match goal with
      | |- context [if ?c then _ else _] => destruct c
      | |- context [match ?l with [] => _ | _ :: _ => _ end] => destruct l
      end ].
Qed.

(** ** format.py *)

Definition encode_header (timestamp key_size value_size : Z) : result bytes :=
  struct_pack [FmtI; FmtI; FmtI] [VInt timestamp; VInt key_size; VInt value_size].

Definition encode_kv (timestamp : Z) (key value : pystr) : result (Z * bytes) :=
  let key_size := len key in
  let value_size := len value in
  header ← encode_header timestamp key_size value_size;
  let format := [FmtS key_size; FmtS value_size] in
  kb ← utf8_encode key;
  vb ← utf8_encode value;
  encoded_kv ← struct_pack format [VBytes kb; VBytes vb];
  Ok (key_size + value_size, header ++ encoded_kv).

Definition decode_header (data : bytes) : result (Z * Z * Z) :=
  header ← struct_unpack [FmtI; FmtI; FmtI] data;
  match header with
  | [VInt timestamp; VInt key_size; VInt value_size] =>
      Ok (timestamp, key_size, value_size)
  | _ => Raise StructError
  end.

Definition decode_kv (data : bytes) : result (Z * pystr * pystr) :=
  '(timestamp, key_size, value_size) ← decode_header (slice_to 12 data);
  fields ← struct_unpack [FmtS key_size; FmtS value_size] (slice_from 12 data);
  match fields with
  | [VBytes key; VBytes value] =>
      k ← utf8_decode key;
      v ← utf8_decode value;
      Ok (timestamp, k, v)
  | _ => Raise StructError
  end.

End Codec.

(** ** Files

    The disk maps a file name to the bytes of the file.  A file object
    is a file name and a position. *)

Abbreviation disk := (gmap pystr bytes).

Record handle : Type := Handle {
  h_name : pystr;
  h_pos : Z
}.

Definition file_content (d : disk) (name : pystr) : bytes :=
  default [] (d !! name).

(** [open(name, "ab+")]: the file is created when it is missing and the
    position starts at its end. *)
Definition open_append (d : disk) (name : pystr) : disk * handle :=
  let d' := match d !! name with
            | Some _ => d
            | None => <[name := []]> d
            end in
  (d', Handle name (len (file_content d' name))).

(** [open(name, "rb")]. *)
Definition open_read (d : disk) (name : pystr) : result handle :=
  match d !! name with
  | Some _ => Ok (Handle name 0)
  | None => Raise FileNotFoundError
  end.

(** [os.path.getsize(name)]. *)
Definition getsize (d : disk) (name : pystr) : result Z :=
  match d !! name with
  | Some content => Ok (len content)
  | None => Raise FileNotFoundError
  end.

(** [f.seek(pos)]. *)
Definition file_seek (f : handle) (pos : Z) : result handle :=
  if pos <? 0 then Raise OSError else Ok (Handle (h_name f) pos).

(** [f.read(n)]: at most [n] bytes from the position on, all of them for a
    negative [n]; the position moves past the bytes read. *)
Definition file_read (d : disk) (f : handle) (n : Z) : bytes * handle :=
  let rest := drop (Z.to_nat (h_pos f)) (file_content d (h_name f)) in
  let data := if n <? 0 then rest else take (Z.to_nat n) rest in
  (data, Handle (h_name f) (h_pos f + len data)).

(** [f.write(data)] followed by [f.flush()] on a file opened for append:
    the bytes go to the end of the file, whatever the position was, and
    the position is the new end. *)
Definition file_append (d : disk) (f : handle) (data : bytes) : disk * handle :=
  let content := file_content d (h_name f) ++ data in
  (<[h_name f := content]> d, Handle (h_name f) (len content)).

(** ** The engine state *)

(** One value of [keydir]: the dictionary with the keys ["file_id"],
    ["value_sz"], ["value_pos"] and ["tstamp"]. *)
Record entry : Type := Entry {
  file_id : pystr;
  value_sz : Z;
  value_pos : Z;
  tstamp : Z
}.

(** The attributes of a [DiskStorage] object. *)
Record DiskStorage : Type := mkDiskStorage {
  self_file_id : pystr;
  self_file_handle : handle;
  self_keydir : gmap pystr entry;
  self_offset : Z
}.

(** What a method works on: the disk and the object. *)
Record world : Type := World {
  fs : disk;
  self : DiskStorage
}.

(** Methods run in a state monad over [world] in which an exception
    stops the run and keeps the state it was raised in. *)
Definition M (A : Type) : Type := world → result A * world.

#[global] Instance M_ret : MRet M := λ A a w, (Ok a, w).
#[global] Instance M_bind : MBind M := λ A B f m w,
  match m w with
  | (Ok a, w') => f a w'
  | (Raise e, w') => (Raise e, w')
  end.

Definition lift {A} (r : result A) : M A := λ w, (r, w).
Definition gets {A} (f : world → A) : M A := λ w, (Ok (f w), w).
Definition modify_self (f : DiskStorage → DiskStorage) : M unit :=
  λ w, (Ok (), World (fs w) (f (self w))).

Definition set_file_handle (h : handle) (o : DiskStorage) : DiskStorage :=
  mkDiskStorage (self_file_id o) h (self_keydir o) (self_offset o).
Definition set_keydir (k : gmap pystr entry) (o : DiskStorage) : DiskStorage :=
  mkDiskStorage (self_file_id o) (self_file_handle o) k (self_offset o).
Definition set_offset (z : Z) (o : DiskStorage) : DiskStorage :=
  mkDiskStorage (self_file_id o) (self_file_handle o) (self_keydir o) z.

(** [self.file_handle.seek(pos)] *)
Definition fh_seek (pos : Z) : M unit :=
  h ← gets (λ w, self_file_handle (self w));
  h' ← lift (file_seek h pos);
  modify_self (set_file_handle h').

(** [self.file_handle.read(n)] *)
Definition fh_read (n : Z) : M bytes :=
  λ w, let '(data, h') := file_read (fs w) (self_file_handle (self w)) n in
       (Ok data, World (fs w) (set_file_handle h' (self w))).

(** [self.file_handle.write(data)], [flush()] and [os.fsync(...)] *)
Definition fh_write (data : bytes) : M unit :=
  λ w, let '(d', h') := file_append (fs w) (self_file_handle (self w)) data in
       (Ok (), World d' (set_file_handle h' (self w))).

(** [self.file_handle.tell()] *)
Definition fh_tell : M Z := gets (λ w, h_pos (self_file_handle (self w))).

(** [os.path.getsize(name)] *)
Definition fs_getsize (name : pystr) : M Z := λ w, (getsize (fs w) name, w).

(** [open(name, "rb")] and [f.read(n)] on the file object it returns; the
    object is local to the caller, who has no use for it after the read. *)
Definition fs_open_read (name : pystr) : M handle := λ w, (open_read (fs w) name, w).
Definition fs_read (f : handle) (n : Z) : M bytes :=
  gets (λ w, fst (file_read (fs w) f n)).

(** [self.keydir[key] = e] *)
Definition keydir_store (key : pystr) (e : entry) : M unit :=
  modify_self (λ o, set_keydir (<[key := e]> (self_keydir o)) o).

(** The state in which the loop of [__init__] starts: the file is open,
    [self.keydir] is empty and [self.offset] is 0. *)
Definition init_world (file_name : pystr) (d : disk) : world :=
  let '(d1, file_handle) := open_append d file_name in
  World d1 (mkDiskStorage file_name file_handle ∅ 0).

Section Engine.

Variable order : byteorder.

(** ** disk_store.py *)

(** The body of the [while] loop of [__init__]. *)
Definition init_body (file_name : pystr) : M unit :=
  off ← gets (λ w, self_offset (self w));
  fh_seek off;;
  header_bytes ← fh_read 12;
  '(timestamp, key_size, value_size) ← lift (decode_header order header_bytes);
  off ← gets (λ w, self_offset (self w));
  fh_seek off;;
  kv_bytes ← fh_read (12 + key_size + value_size);
  '(_, key, value) ← lift (decode_kv order kv_bytes);
  let key_size := len key in
  let value_size := len value in
  off ← gets (λ w, self_offset (self w));
  modify_self (set_offset (off + 12 + key_size + value_size));;
  off ← gets (λ w, self_offset (self w));
  keydir_store key (Entry file_name value_size (off - value_size) timestamp).

(** The loop condition [self.offset < os.path.getsize(file_name)]. *)
Definition init_cond (file_name : pystr) : M bool :=
  off ← gets (λ w, self_offset (self w));
  size ← fs_getsize file_name;
  mret (off <? size).

(** [while self.offset < os.path.getsize(file_name): ...]; every round
    moves [self.offset] forward by at least the twelve header bytes. *)
Equations? init_loop (file_name : pystr) (w : world) : result unit * world
  by wf (Z.to_nat (len (file_content (fs w) file_name) - self_offset (self w))) lt :=
  init_loop file_name w with inspect (init_cond file_name w) := {
    | exist _ (Raise e, w1) _ => (Raise e, w1)
    | exist _ (Ok false, w1) _ => (Ok (), w1)
    | exist _ (Ok true, w1) Hc with inspect (init_body file_name w1) := {
        | exist _ (Raise e, w2) _ => (Raise e, w2)
        | exist _ (Ok _, w2) Hb => init_loop file_name w2 } }.
Proof.
  unfold init_cond, fs_getsize, getsize, gets, mbind, M_bind, mret, M_ret in Hc.
  unfold file_content. destruct (fs w !! file_name) as [content|] eqn:Hf;
    simplify_eq/=.
  unfold init_body, fh_seek, fh_read, keydir_store, modify_self, gets, lift,
    mbind, M_bind, file_seek in Hb.
  repeat (case_match; simplify_eq/=);
    rewrite Hf; simpl; unfold len in *; lia.
Qed.

(** [DiskStorage.__init__(self, file_name)]: the new object and the disk
    (the call creates a missing file), or the exception; no object exists
    after an exception. *)
Definition DiskStorage_init (file_name : pystr) (d : disk) : result DiskStorage * disk :=
  match init_loop file_name (init_world file_name d) with
  | (Ok _, w) => (Ok (self w), fs w)
  | (Raise e, w) => (Raise e, fs w)
  end.

(** [DiskStorage.set(self, key, value)]; [current_timestamp] is what
    [int(time.time())] returns during the call.  The four assignments to
    [self.keydir[key][...]] leave the same dictionary whether the key was
    there or not, so they are one store of the finished entry. *)
Definition DiskStorage_set (current_timestamp : Z) (key value : pystr) : M unit :=
  '(_, kv_data) ← lift (encode_kv order current_timestamp key value);
  fh_write kv_data;;
  fid ← gets (λ w, self_file_id (self w));
  pos ← fh_tell;
  keydir_store key (Entry fid (len value) (pos - len value) current_timestamp).

(** [DiskStorage.get(self, key)] *)
Definition DiskStorage_get (key : pystr) : M pystr :=
  let value : pystr := [] in
  keydir ← gets (λ w, self_keydir (self w));
  match keydir !! key with
  | None => mret value
  | Some metadata =>
      let file_path := file_id metadata in
      f ← fs_open_read file_path;
      let value_sz := value_sz metadata in
      let value_pos := value_pos metadata in
      f ← lift (file_seek f value_pos);
      value_bytes ← fs_read f value_sz;
      fields ← lift (struct_unpack order [FmtS value_sz] value_bytes);
      match fields with
      | [VBytes value] => lift (utf8_decode value)
      | _ => lift (Raise StructError)
      end
  end.

(** [__setitem__] and [__getitem__] *)
Definition DiskStorage_setitem (current_timestamp : Z) (key value : pystr) : M unit :=
  DiskStorage_set current_timestamp key value.
Definition DiskStorage_getitem (item : pystr) : M pystr :=
  DiskStorage_get item.

(** The states of an engine: built by [__init__], then any calls of [set]
    and [get], failed calls included. *)
Inductive reachable : world → Prop :=
| reach_init file_name d o d' :
    DiskStorage_init file_name d = (Ok o, d') →
    reachable (World d' o)
| reach_set w now key value r w' :
    reachable w →
    DiskStorage_set now key value w = (r, w') →
    reachable w'
| reach_get w key r w' :
    reachable w →
    DiskStorage_get key w = (r, w') →
    reachable w'.

End Engine.

(** ** Text that is its own encoding

    A [str] of ASCII characters, and a [bytes] of ASCII bytes: for these
    the number of characters and the number of UTF-8 bytes agree. *)

Definition ascii (s : pystr) : Prop := Forall (λ c, (c < 128)%N) s.
Definition ascii_bytes (b : bytes) : Prop := Forall (λ x, (Byte.to_N x < 128)%N) b.

(** ** The layout of a log file

    A record is a twelve-byte header that declares the sizes of the key
    and of the value, then that many key bytes and value bytes. *)

Record raw_record : Type := RawRecord {
  r_tstamp : Z;
  r_key : bytes;
  r_value : bytes
}.

Definition record_bytes (order : byteorder) (r : raw_record) : bytes :=
  pack_I order (r_tstamp r) ++ pack_I order (len (r_key r))
  ++ pack_I order (len (r_value r)) ++ r_key r ++ r_value r.

(** The fields of a record fit their header. *)
Definition record_ok (r : raw_record) : Prop :=
  0 ≤ r_tstamp r ≤ UINT_MAX ∧ len (r_key r) ≤ UINT_MAX ∧ len (r_value r) ≤ UINT_MAX.

Definition log_bytes (order : byteorder) (rs : list raw_record) : bytes :=
  concat (map (record_bytes order) rs).

(** A record of ASCII bytes, the text its bytes decode to, and the index
    that the records of a log call for: each record stores, under its
    key, where its value lies; [start] is the offset of the first
    record. *)
Definition ascii_record (r : raw_record) : Prop :=
  ascii_bytes (r_key r) ∧ ascii_bytes (r_value r).

Definition text (b : bytes) : pystr := map Byte.to_N b.

Definition record_size (r : raw_record) : Z :=
  12 + len (r_key r) + len (r_value r).

Fixpoint replay_index (file_name : pystr) (start : Z) (rs : list raw_record)
    (keydir : gmap pystr entry) : gmap pystr entry :=
  match rs with
  | [] => keydir
  | r :: rs' =>
      replay_index file_name (start + record_size r) rs'
        (<[text (r_key r) :=
             Entry file_name (len (r_value r)) (start + 12 + len (r_key r))
               (r_tstamp r)]> keydir)
  end.

(** The key-value store that the records of a log stand for: a later
    record of a key replaces the earlier ones. *)
Fixpoint log_model (rs : list raw_record) (m : gmap pystr pystr) : gmap pystr pystr :=
  match rs with
  | [] => m
  | r :: rs' => log_model rs' (<[text (r_key r) := text (r_value r)]> m)
  end.

(** [n] rounds of the body of the loop of [__init__]. *)
Fixpoint init_rounds (order : byteorder) (file_name : pystr) (n : nat) : M unit :=
  match n with
  | O => mret ()
  | S n' => init_body order file_name;; init_rounds order file_name n'
  end.

(** ** The shape of an engine state

    An index entry names the log file and lies inside it; the file object
    of the engine is open on the log file, which exists. *)

Definition entry_ok (name : pystr) (size : Z) (e : entry) : Prop :=
  file_id e = name ∧ 0 ≤ value_sz e ∧ 0 ≤ value_pos e
  ∧ value_pos e + value_sz e ≤ size.

Definition world_ok (w : world) : Prop :=
  h_name (self_file_handle (self w)) = self_file_id (self w)
  ∧ ∃ content, fs w !! self_file_id (self w) = Some content
      ∧ map_Forall (λ _ e, entry_ok (self_file_id (self w)) (len content) e)
          (self_keydir (self w)).

(** An index agrees with a store over the contents of the log file: the
    keys are the same, and the entry of a key points at the bytes of the
    value the store has for it. *)
Definition index_agrees (file_name : pystr) (content : bytes)
    (keydir : gmap pystr entry) (m : gmap pystr pystr) : Prop :=
  ∀ key,
    match m !! key with
    | Some value =>
        ∃ e, keydir !! key = Some e
          ∧ entry_ok file_name (len content) e
          ∧ take (Z.to_nat (value_sz e)) (drop (Z.to_nat (value_pos e)) content)
            = map byte_of_N value
          ∧ ascii value
    | None => keydir !! key = None
    end.

(** The runs of an engine on ASCII text: the engine is built on a log of
    whole ASCII records, then [set] is called with ASCII keys and values;
    the second index is the list of the records in the file. *)
Inductive ascii_run (order : byteorder) (file_name : pystr) : world → list raw_record → Prop :=
| run_open d rs o d' :
    file_content d file_name = log_bytes order rs →
    Forall record_ok rs → Forall ascii_record rs →
    DiskStorage_init order file_name d = (Ok o, d') →
    ascii_run order file_name (World d' o) rs
| run_set w rs now key value w' :
    ascii_run order file_name w rs →
    ascii key → ascii value →
    DiskStorage_set order now key value w = (Ok (), w') →
    ascii_run order file_name w'
      (rs ++ [RawRecord now (map byte_of_N key) (map byte_of_N value)])
| run_set_raise w rs now key value e w' :
    ascii_run order file_name w rs →
    DiskStorage_set order now key value w = (Raise e, w') →
    ascii_run order file_name w' rs
| run_get w rs key r w' :
    ascii_run order file_name w rs →
    DiskStorage_get order key w = (r, w') →
    ascii_run order file_name w' rs.

(** ** Literals for the examples *)

(** The [str] of an ASCII literal. *)
Definition str (s : string) : pystr := map N_of_ascii (list_ascii_of_string s).

(** ["data.db"], the default [file_name]. *)
Definition data_db : pystr := str "data.db".

(** The engine that [DiskStorage()] builds on an empty ["data.db"]. *)
Definition fresh_engine : world :=
  World {[data_db := []]} (mkDiskStorage data_db (Handle data_db 0) ∅ 0).

(** * Properties *)

(** ** Bytes and 32-bit fields *)

Lemma byte_to_N_of_N (n : N) : (n < 256)%N → Byte.to_N (byte_of_N n) = n.
Proof.
  intros Hn. unfold byte_of_N. rewrite N.mod_small by done.
  destruct (Byte.of_N n) as [b|] eqn:Hb.
  - by apply Byte.to_of_N.
  - apply Byte.of_N_None_iff in Hb. lia.
Qed.

Lemma byte_of_N_to_N (b : byte) : byte_of_N (Byte.to_N b) = b.
Proof.
  unfold byte_of_N. pose proof (Byte.to_N_bounded b).
  rewrite N.mod_small by lia. by rewrite Byte.of_to_N.
Qed.

Lemma Z_of_byte_range (b : byte) : 0 ≤ Z_of_byte b < 256.
Proof. unfold Z_of_byte. pose proof (Byte.to_N_bounded b). lia. Qed.

Lemma Z_of_byte_of_Z (z : Z) : Z_of_byte (byte_of_Z z) = z mod 256.
Proof.
  unfold Z_of_byte, byte_of_Z.
  pose proof (Z.mod_pos_bound z 256 ltac:(lia)).
  rewrite byte_to_N_of_N by lia. lia.
Qed.

Lemma length_pack_I order z : length (pack_I order z) = 4%nat.
Proof. by destruct order. Qed.

Lemma unpack_pack_I order z :
  0 ≤ z ≤ UINT_MAX → unpack_I order (pack_I order z) = z.
Proof.
  unfold UINT_MAX. intros Hz.
  assert (Z_of_byte (byte_of_Z z) + 256 * Z_of_byte (byte_of_Z (z / 256))
          + 65536 * Z_of_byte (byte_of_Z (z / 65536))
          + 16777216 * Z_of_byte (byte_of_Z (z / 16777216)) = z) as Hsum.
  { rewrite !Z_of_byte_of_Z. 
    assert (z / 16777216 < 256) by (apply Z.div_lt_upper_bound; lia).
    assert (0 ≤ z / 16777216) by (apply Z.div_pos; lia).
    rewrite (Z.mod_small (z / 16777216)) by lia.
    replace (z / 16777216) with (z / 65536 / 256)
      by (rewrite Z.div_div by lia; done).
    replace (z / 65536) with (z / 256 / 256) at 1
      by (rewrite Z.div_div by lia; done).
    replace (z / 65536) with (z / 256 / 256)
      by (rewrite Z.div_div by lia; done).
    pose proof (Z.div_mod z 256 ltac:(lia)).
    pose proof (Z.div_mod (z / 256) 256 ltac:(lia)).
    pose proof (Z.div_mod (z / 256 / 256) 256 ltac:(lia)).
    lia. }
  unfold unpack_I, pack_I, native. destruct order; simpl; lia.
Qed.

Lemma unpack_I_range order bs : 0 ≤ unpack_I order bs ≤ UINT_MAX.
Proof.
  unfold unpack_I, UINT_MAX.
  destruct (native order bs) as [|b0 [|b1 [|b2 [|b3 [|]]]]]; try lia.
  pose proof (Z_of_byte_range b0). pose proof (Z_of_byte_range b1).
  pose proof (Z_of_byte_range b2). pose proof (Z_of_byte_range b3). lia.
Qed.

Lemma len_app {A} (l1 l2 : list A) : len (l1 ++ l2) = len l1 + len l2.
Proof. unfold len. rewrite length_app. lia. Qed.

Lemma len_nonneg {A} (l : list A) : 0 ≤ len l.
Proof. unfold len. lia. Qed.

(** ** UTF-8 *)

Arguments utf8_decode_char : simpl never.

Lemma utf8_decode_cons (b : byte) (r : bytes) :
  utf8_decode (b :: r) =
  match utf8_decode_char (b :: r) with
  | None => Raise UnicodeDecodeError
  | Some (c, rest) => s ← utf8_decode rest; Ok (c :: s)
  end.
Proof.
  simp utf8_decode.
  destruct (inspect (utf8_decode_char (b :: r))) as [[[c rest]|] Hstep];
    simpl; [destruct (utf8_decode rest) eqn:Hrest|];
    simpl; rewrite Hstep; simpl; by rewrite ?Hrest.
Qed.

Lemma utf8_decode_char_step (data : bytes) (c : N) (rest : bytes) :
  utf8_decode_char data = Some (c, rest) →
  (∃ b, data = b :: rest ∧ c = Byte.to_N b ∧ (c < 128)%N)
  ∨ (length rest + 2 ≤ length data)%nat.
Proof.
  unfold utf8_decode_char. destruct data as [|b0 r0]; [done|].
  destruct (N.ltb_spec (Byte.to_N b0) 128).
  { intros [= <- <-]. left. eauto. }
  intros Hstep. right. revert Hstep.
  repeat first
    [ progress (intros [= <- <-]; simpl; lia)
    | discriminate
    | match goal with
      | |- context [if ?c then _ else _] => destruct c
      | |- context [match ?l with [] => _ | _ :: _ => _ end] => destruct l
      end ].
Qed.

Lemma utf8_decode_length (data : bytes) (s : pystr) :
  utf8_decode data = Ok s → (length s ≤ length data)%nat.
Proof.
  remember (length data) as n eqn:Hn. revert data s Hn.
  induction n as [n IH] using lt_wf_ind. intros [|b r] s -> .
  - simp utf8_decode. by intros [= <-].
  - rewrite utf8_decode_cons.
    destruct (utf8_decode_char (b :: r)) as [[c rest]|] eqn:Hstep; [|done].
    destruct (utf8_decode rest) as [s'|] eqn:Hrest; [|done].
    intros [= <-].
    assert (length rest < length (b :: r))%nat as Hlt
      by (apply utf8_decode_char_step in Hstep as [(? & [= _ ->] & _)|?]; simpl in *; lia).
    specialize (IH _ Hlt rest s' eq_refl Hrest). simpl in *. lia.
Qed.

(** Decoding yields as many characters as there were bytes only when
    every byte stands for itself. *)
Lemma utf8_decode_same_length (data : bytes) (s : pystr) :
  utf8_decode data = Ok s → length s = length data →
  ascii s ∧ data = map byte_of_N s.
Proof.
  remember (length data) as n eqn:Hn. revert data s Hn.
  induction n as [n IH] using lt_wf_ind. intros [|b r] s -> .
  - simp utf8_decode. intros [= <-] _. split; [constructor | done].
  - rewrite utf8_decode_cons.
    destruct (utf8_decode_char (b :: r)) as [[c rest]|] eqn:Hstep; [|done].
    destruct (utf8_decode rest) as [s'|] eqn:Hrest; [|done].
    intros [= <-] Hlen. pose proof (utf8_decode_length _ _ Hrest) as Hle.
    apply utf8_decode_char_step in Hstep as [(b' & [= <- ->] & -> & Hc)|?];
      [|simpl in *; lia].
    destruct (IH (length rest) ltac:(simpl; lia) rest s' eq_refl Hrest) as [Ha Hr];
      [simpl in *; lia|].
    split; [by constructor|]. simpl. by rewrite byte_of_N_to_N, <- Hr.
Qed.

Lemma utf8_decode_ascii_bytes (data : bytes) :
  ascii_bytes data → utf8_decode data = Ok (map Byte.to_N data).
Proof.
  induction 1 as [|b r Hb _ IH]; [by simp utf8_decode|].
  rewrite utf8_decode_cons. unfold utf8_decode_char.
  apply N.ltb_lt in Hb. rewrite Hb. by rewrite IH.
Qed.

Lemma utf8_encode_ascii (s : pystr) :
  ascii s → utf8_encode s = Ok (map byte_of_N s).
Proof.
  induction 1 as [|c s Hc _ IH]; [done|]. simpl.
  unfold utf8_encode_char. apply N.ltb_lt in Hc. rewrite Hc. simpl.
  by rewrite IH.
Qed.

Lemma ascii_bytes_of_ascii (s : pystr) : ascii s → ascii_bytes (map byte_of_N s).
Proof.
  unfold ascii, ascii_bytes. rewrite Forall_fmap. intros Hs.
  eapply Forall_impl; [exact Hs|].
  intros c Hc. unfold compose. simpl in Hc. rewrite byte_to_N_of_N; lia.
Qed.

Lemma utf8_decode_ascii (s : pystr) :
  ascii s → utf8_decode (map byte_of_N s) = Ok s.
Proof.
  intros Hs. rewrite utf8_decode_ascii_bytes by by apply ascii_bytes_of_ascii.
  f_equal. rewrite <- list_fmap_compose. rewrite <- (list_fmap_id s) at 2.
  apply Forall_fmap_ext. eapply Forall_impl; [exact Hs|].
  intros c Hc. simpl in *. rewrite byte_to_N_of_N; lia.
Qed.

(** The encoding of a [str] has at least one byte per character. *)
Lemma utf8_encode_length (s : pystr) (b : bytes) :
  utf8_encode s = Ok b → (length s ≤ length b)%nat.
Proof.
  revert b. induction s as [|c s IH]; intros b; simpl; [intros [= <-]; done|].
  destruct (utf8_encode_char c) as [bc|] eqn:Hc; [|done]. simpl.
  destruct (utf8_encode s) as [bs|] eqn:Hs; [|done]. simpl. intros [= <-].
  specialize (IH _ eq_refl). rewrite length_app.
  assert (1 ≤ length bc)%nat; [|lia].
  unfold utf8_encode_char in Hc.
  repeat match type of Hc with
         | context [if ?c then _ else _] => destruct c
         end; inversion Hc; simpl; lia.
Qed.

(** ** format.py *)

Lemma encode_header_ok order (t k v : Z) :
  0 ≤ t ≤ UINT_MAX → 0 ≤ k ≤ UINT_MAX → 0 ≤ v ≤ UINT_MAX →
  encode_header order t k v = Ok (pack_I order t ++ pack_I order k ++ pack_I order v).
Proof.
  intros Ht Hk Hv. unfold encode_header. simpl.
  repeat match goal with
  | |- context [(0 <=? ?z) && (?z <=? UINT_MAX)] =>
      replace ((0 <=? z) && (z <=? UINT_MAX)) with true
        by (symmetry; apply andb_true_iff; split; apply Z.leb_le; lia)
  end.
  simpl. by rewrite app_nil_r.
Qed.

Lemma encode_header_inv order (t k v : Z) (h : bytes) :
  encode_header order t k v = Ok h →
  0 ≤ t ≤ UINT_MAX ∧ 0 ≤ k ≤ UINT_MAX ∧ 0 ≤ v ≤ UINT_MAX.
Proof.
  unfold encode_header. simpl.
  destruct ((0 <=? t) && (t <=? UINT_MAX)) eqn:Ht; [|done].
  destruct ((0 <=? k) && (k <=? UINT_MAX)) eqn:Hk; [|done].
  destruct ((0 <=? v) && (v <=? UINT_MAX)) eqn:Hv; [|done].
  intros _. apply andb_true_iff in Ht, Hk, Hv. lia.
Qed.

Lemma decode_header_cases order (data : bytes) :
  decode_header order data =
  if bool_decide (length data = 12%nat)
  then Ok (unpack_I order (take 4 data),
           unpack_I order (take 4 (drop 4 data)),
           unpack_I order (take 4 (drop 8 data)))
  else Raise StructError.
Proof.
  unfold decode_header, struct_unpack, len.
  change (calcsize [FmtI; FmtI; FmtI]) with 12. simpl.
  case_bool_decide as Hlen.
  - rewrite Hlen. simpl. by rewrite drop_drop.
  - destruct (Z.eqb_spec (Z.of_nat (length data)) 12) as [Heq|]; [lia|done].
Qed.

Lemma decode_header_pack order (t k v : Z) :
  0 ≤ t ≤ UINT_MAX → 0 ≤ k ≤ UINT_MAX → 0 ≤ v ≤ UINT_MAX →
  decode_header order (pack_I order t ++ pack_I order k ++ pack_I order v)
  = Ok (t, k, v).
Proof.
  intros Ht Hk Hv. rewrite decode_header_cases.
  rewrite bool_decide_eq_true_2 by (rewrite !length_app, !length_pack_I; done).
  rewrite take_app_length' by (by rewrite length_pack_I).
  rewrite drop_app_length' by (by rewrite length_pack_I).
  rewrite take_app_length' by (by rewrite length_pack_I).
  change 8%nat with (4 + 4)%nat. rewrite <- drop_drop.
  rewrite drop_app_length' by (by rewrite length_pack_I).
  rewrite drop_app_length' by (by rewrite length_pack_I).
  rewrite firstn_all2 by (rewrite length_pack_I; lia).
  by rewrite !unpack_pack_I.
Qed.

Lemma record_bytes_length order (r : raw_record) :
  len (record_bytes order r) = 12 + len (r_key r) + len (r_value r).
Proof.
  unfold record_bytes, len. rewrite !length_app, !length_pack_I. lia.
Qed.

Lemma decode_kv_record order (r : raw_record) :
  record_ok r →
  decode_kv order (record_bytes order r) =
  (k ← utf8_decode (r_key r); v ← utf8_decode (r_value r); Ok (r_tstamp r, k, v)).
Proof.
  intros (Ht & Hk & Hv). unfold decode_kv, slice_to, slice_from, record_bytes.
  pose proof (len_nonneg (r_key r)). pose proof (len_nonneg (r_value r)).
  rewrite !(assoc_L (++)).
  rewrite <- (assoc_L (++) _ (r_key r)).
  rewrite take_app_length' by (rewrite !length_app, !length_pack_I; done).
  rewrite drop_app_length' by (rewrite !length_app, !length_pack_I; done).
  rewrite <- !(assoc_L (++)).
  rewrite decode_header_pack by lia. simpl.
  unfold struct_unpack. simpl.
  replace (0 <=? len (r_key r)) with true by (symmetry; apply Z.leb_le; lia).
  replace (0 <=? len (r_value r)) with true by (symmetry; apply Z.leb_le; lia).
  rewrite len_app. simpl.
  replace (len (r_key r) + len (r_value r) =? len (r_key r) + (len (r_value r) + 0))
    with true by (symmetry; apply Z.eqb_eq; lia).
  simpl. unfold len. rewrite !Nat2Z.id.
  rewrite take_app_length, drop_app_length, firstn_all. done.
Qed.

Lemma pack_s_long {A} (s : list A) (b : bytes) :
  (length s ≤ length b)%nat → pack_s (len s) b = take (length s) b.
Proof.
  intros Hn. unfold pack_s, len. rewrite Nat2Z.id.
  replace (length s - length b)%nat with 0%nat by lia. simpl.
  by rewrite app_nil_r.
Qed.

(** What [encode_kv] returns when it returns: the key and value fields
    hold the first [len(key)] and [len(value)] bytes of the encodings. *)
Lemma encode_kv_ok order (t : Z) (k v : pystr) (kb vb : bytes) :
  utf8_encode k = Ok kb → utf8_encode v = Ok vb →
  0 ≤ t ≤ UINT_MAX → len k ≤ UINT_MAX → len v ≤ UINT_MAX →
  encode_kv order t k v =
  Ok (len k + len v,
      record_bytes order (RawRecord t (take (length k) kb) (take (length v) vb))).
Proof.
  intros Hk Hv Ht Hlk Hlv. unfold encode_kv.
  pose proof (len_nonneg k). pose proof (len_nonneg v).
  pose proof (utf8_encode_length _ _ Hk). pose proof (utf8_encode_length _ _ Hv).
  rewrite encode_header_ok by lia. rewrite Hk, Hv. simpl.
  replace (0 <=? len k) with true by (symmetry; apply Z.leb_le; lia).
  replace (0 <=? len v) with true by (symmetry; apply Z.leb_le; lia).
  simpl. rewrite !pack_s_long by done.
  unfold record_bytes. simpl.
  assert (len (take (length k) kb) = len k) as ->
    by (unfold len; by rewrite length_take_le).
  assert (len (take (length v) vb) = len v) as ->
    by (unfold len; by rewrite length_take_le).
  by rewrite app_nil_r, <- !(assoc_L (++)).
Qed.

Lemma encode_kv_inv order (t : Z) (k v : pystr) (n : Z) (data : bytes) :
  encode_kv order t k v = Ok (n, data) →
  ∃ kb vb, utf8_encode k = Ok kb ∧ utf8_encode v = Ok vb
    ∧ 0 ≤ t ≤ UINT_MAX ∧ len k ≤ UINT_MAX ∧ len v ≤ UINT_MAX
    ∧ n = len k + len v
    ∧ data = record_bytes order
               (RawRecord t (take (length k) kb) (take (length v) vb)).
Proof.
  intros Henc. pose proof Henc as Henc'. unfold encode_kv in Henc'.
  destruct (encode_header order t (len k) (len v)) as [h|] eqn:Hh; [|done].
  apply encode_header_inv in Hh as (Ht & Hk & Hv).
  destruct (utf8_encode k) as [kb|] eqn:Hkb; [|done].
  destruct (utf8_encode v) as [vb|] eqn:Hvb; [|done].
  clear Henc'. exists kb, vb.
  rewrite (encode_kv_ok order t k v kb vb) in Henc by (done || lia).
  injection Henc as <- <-. repeat split; (done || lia).
Qed.

Lemma encode_kv_ascii order (t : Z) (k v : pystr) :
  ascii k → ascii v →
  0 ≤ t ≤ UINT_MAX → len k ≤ UINT_MAX → len v ≤ UINT_MAX →
  encode_kv order t k v =
  Ok (len k + len v,
      record_bytes order (RawRecord t (map byte_of_N k) (map byte_of_N v))).
Proof.
  intros Hk Hv Ht Hlk Hlv.
  rewrite (encode_kv_ok order t k v (map byte_of_N k) (map byte_of_N v))
    by (done || by apply utf8_encode_ascii).
  rewrite !firstn_all2 by (by rewrite length_map). done.
Qed.

(** The round trip of the codec on ASCII text. *)
Lemma decode_encode_kv_ascii order (t : Z) (k v : pystr) :
  ascii k → ascii v →
  0 ≤ t ≤ UINT_MAX → len k ≤ UINT_MAX → len v ≤ UINT_MAX →
  ∃ n data, encode_kv order t k v = Ok (n, data)
            ∧ decode_kv order data = Ok (t, k, v).
Proof.
  intros Hk Hv Ht Hlk Hlv. eexists _, _. split; [by apply encode_kv_ascii|].
  rewrite decode_kv_record.
  - simpl. by rewrite !utf8_decode_ascii.
  - unfold record_ok, len in *. simpl. rewrite !length_map. lia.
Qed.

(** The round trip of the codec holds for ASCII text only. *)
Lemma decode_encode_kv_only_ascii order (t : Z) (k v : pystr) (n : Z) (data : bytes) :
  encode_kv order t k v = Ok (n, data) →
  decode_kv order data = Ok (t, k, v) →
  ascii k ∧ ascii v.
Proof.
  intros (kb & vb & Hkb & Hvb & Ht & Hlk & Hlv & -> & ->)%encode_kv_inv.
  pose proof (utf8_encode_length _ _ Hkb). pose proof (utf8_encode_length _ _ Hvb).
  rewrite decode_kv_record; simpl.
  - destruct (utf8_decode (take (length k) kb)) as [k'|] eqn:Hk'; [|done].
    destruct (utf8_decode (take (length v) vb)) as [v'|] eqn:Hv'; [|done].
    simpl. intros [= -> ->].
    apply utf8_decode_same_length in Hk' as [? _]; [|by rewrite length_take_le].
    apply utf8_decode_same_length in Hv' as [? _]; [|by rewrite length_take_le].
    done.
  - unfold record_ok, len in *. simpl. rewrite !length_take_le by done. lia.
Qed.

(** ** disk_store.py: the methods, step by step *)

Lemma init_cond_cases (file_name : pystr) (w : world) :
  init_cond file_name w =
  (match fs w !! file_name with
   | Some content => Ok (self_offset (self w) <? len content)
   | None => Raise FileNotFoundError
   end, w).
Proof.
  unfold init_cond, fs_getsize, getsize, gets, mbind, M_bind, mret, M_ret.
  by destruct (fs w !! file_name).
Qed.

Lemma init_loop_step order (file_name : pystr) (w : world) :
  init_loop order file_name w =
  match init_cond file_name w with
  | (Raise e, w1) => (Raise e, w1)
  | (Ok false, w1) => (Ok (), w1)
  | (Ok true, w1) =>
      match init_body order file_name w1 with
      | (Raise e, w2) => (Raise e, w2)
      | (Ok _, w2) => init_loop order file_name w2
      end
  end.
Proof.
  simp init_loop.
  destruct (inspect (init_cond file_name w)) as [[[[]|e] w1] Hc];
    simpl; rewrite Hc; try done.
  destruct (inspect (init_body order file_name w1)) as [[[[]|e] w2] Hb];
    simpl; rewrite Hb; done.
Qed.

Lemma init_body_cases order (file_name : pystr) (w : world) :
  let o := self w in
  let off := self_offset o in
  let h := self_file_handle o in
  let rest := drop (Z.to_nat off) (file_content (fs w) (h_name h)) in
  0 ≤ off →
  match decode_header order (take 12 rest) with
  | Raise e => fst (init_body order file_name w) = Raise e
  | Ok (t, ks, vs) =>
      let kv_bytes := take (Z.to_nat (12 + ks + vs)) rest in
      match decode_kv order kv_bytes with
      | Raise e => fst (init_body order file_name w) = Raise e
      | Ok (_, k, v) =>
          init_body order file_name w =
          (Ok (),
           World (fs w)
             (mkDiskStorage (self_file_id o)
                (Handle (h_name h) (off + len kv_bytes))
                (<[k := Entry file_name (len v)
                          (off + 12 + len k + len v - len v) t]> (self_keydir o))
                (off + 12 + len k + len v)))
      end
  end.
Proof.
  intros o off h rest Hoff. subst o off h rest.
  assert (Hneg : (self_offset (self w) <? 0) = false) by by apply Z.ltb_ge.
  unfold init_body, fh_seek, fh_read, keydir_store, modify_self, gets, lift,
    mbind, M_bind, file_seek, file_read. simpl.
  change (Z.to_nat 12) with 12%nat. rewrite Hneg. simpl.
  match goal with |- context [decode_header order ?d] =>
    rewrite (decode_header_cases order d) end.
  case_bool_decide; [|done]. simpl. rewrite Hneg. simpl.
  match goal with |- context [12 + unpack_I order ?a + unpack_I order ?b] =>
    pose proof (unpack_I_range order a); pose proof (unpack_I_range order b);
    replace (12 + unpack_I order a + unpack_I order b <? 0) with false
      by (symmetry; apply Z.ltb_ge; lia)
  end.
  match goal with |- context [decode_kv order ?d] =>
    destruct (decode_kv order d) as [[[t' k] v]|e] eqn:Hkv end; done.
Qed.

Lemma set_cases order (now : Z) (key value : pystr) (w : world) :
  DiskStorage_set order now key value w =
  match encode_kv order now key value with
  | Raise e => (Raise e, w)
  | Ok (_, kv_data) =>
      let name := h_name (self_file_handle (self w)) in
      let content := file_content (fs w) name ++ kv_data in
      (Ok (),
       World (<[name := content]> (fs w))
         (mkDiskStorage (self_file_id (self w)) (Handle name (len content))
            (<[key := Entry (self_file_id (self w)) (len value)
                        (len content - len value) now]> (self_keydir (self w)))
            (self_offset (self w))))
  end.
Proof.
  unfold DiskStorage_set, lift, mbind, M_bind.
  by destruct (encode_kv order now key value) as [[n kv_data]|e].
Qed.

Lemma set_cases_Ok order (now : Z) (key value : pystr) (w w' : world) :
  DiskStorage_set order now key value w = (Ok (), w') →
  ∃ n kv_data,
    encode_kv order now key value = Ok (n, kv_data)
    ∧ w' = let name := h_name (self_file_handle (self w)) in
           let content := file_content (fs w) name ++ kv_data in
           World (<[name := content]> (fs w))
             (mkDiskStorage (self_file_id (self w)) (Handle name (len content))
                (<[key := Entry (self_file_id (self w)) (len value)
                            (len content - len value) now]> (self_keydir (self w)))
                (self_offset (self w))).
Proof.
  rewrite set_cases.
  destruct (encode_kv order now key value) as [[n kv_data]|e]; [|done].
  intros [= <-]. eauto.
Qed.

(** A [set] that raises has changed nothing. *)
Lemma set_cases_Raise order (now : Z) (key value : pystr) (e : exn) (w w' : world) :
  DiskStorage_set order now key value w = (Raise e, w') → w' = w.
Proof.
  rewrite set_cases.
  destruct (encode_kv order now key value) as [[n kv_data]|e']; [done|].
  by intros [= _ <-].
Qed.

(** [get] changes neither the disk nor the object. *)
Lemma get_state order (key : pystr) (w : world) :
  snd (DiskStorage_get order key w) = w.
Proof.
  unfold DiskStorage_get, fs_open_read, fs_read, open_read, gets, lift,
    mbind, M_bind, mret, M_ret. simpl.
  destruct (self_keydir (self w) !! key) as [e|]; [|done].
  destruct (fs w !! file_id e); [|done]. simpl.
  destruct (file_seek _ _); [|done]. simpl.
  by destruct (struct_unpack _ _ _) as [[|[|value] [|]]|].
Qed.

Lemma get_miss order (key : pystr) (w : world) :
  self_keydir (self w) !! key = None →
  DiskStorage_get order key w = (Ok [], w).
Proof.
  intros Hk. unfold DiskStorage_get, gets, mbind, M_bind. simpl. by rewrite Hk.
Qed.

(** [get] on an entry that lies inside its file decodes the bytes the
    entry points at. *)
Lemma get_hit order (key : pystr) (w : world) (e : entry) (content : bytes) :
  self_keydir (self w) !! key = Some e →
  fs w !! file_id e = Some content →
  entry_ok (file_id e) (len content) e →
  DiskStorage_get order key w =
  (utf8_decode (take (Z.to_nat (value_sz e)) (drop (Z.to_nat (value_pos e)) content)),
   w).
Proof.
  intros Hk Hf (_ & Hsz & Hpos & Hend).
  unfold DiskStorage_get, fs_open_read, fs_read, open_read, gets, lift,
    mbind, M_bind, mret, M_ret, file_seek, file_read, file_content. simpl.
  rewrite Hk, Hf. simpl.
  replace (value_pos e <? 0) with false by (symmetry; apply Z.ltb_ge; lia).
  simpl. rewrite Hf. simpl.
  replace (value_sz e <? 0) with false by (symmetry; apply Z.ltb_ge; lia).
  unfold struct_unpack. simpl.
  replace (0 <=? value_sz e) with true by (symmetry; apply Z.leb_le; lia).
  assert (len (take (Z.to_nat (value_sz e)) (drop (Z.to_nat (value_pos e)) content))
          = value_sz e) as Hlen.
  { unfold len in *. rewrite length_take_le; [lia|]. rewrite length_drop. lia. }
  rewrite Hlen.
  replace (value_sz e =? value_sz e + 0) with true
    by (symmetry; apply Z.eqb_eq; lia).
  simpl. rewrite take_take, Nat.min_id.
  by destruct (utf8_decode _).
Qed.

(** What a successful [decode_kv] says about its buffer: it is exactly as
    long as the header declares, and the decoded texts have at most as
    many characters as their fields have bytes. *)
Lemma decode_kv_inv order (data : bytes) (t : Z) (k v : pystr) :
  decode_kv order data = Ok (t, k, v) →
  ∃ ks vs, decode_header order (take 12 data) = Ok (t, ks, vs)
    ∧ 0 ≤ ks ∧ 0 ≤ vs ∧ len data = 12 + ks + vs
    ∧ utf8_decode (take (Z.to_nat ks) (drop 12 data)) = Ok k
    ∧ utf8_decode (take (Z.to_nat vs) (drop (Z.to_nat ks) (drop 12 data))) = Ok v
    ∧ len k ≤ ks ∧ len v ≤ vs.
Proof.
  unfold decode_kv, slice_to, slice_from.
  destruct (decode_header order (take 12 data)) as [[[t' ks] vs]|] eqn:Hh;
    [|done].
  simpl. unfold struct_unpack. simpl.
  destruct (Z.leb_spec 0 ks); [|done]. destruct (Z.leb_spec 0 vs); [|done].
  simpl. destruct (Z.eqb_spec (len (drop 12 data)) (ks + (vs + 0))) as [Hlen|];
    [|done].
  simpl.
  destruct (utf8_decode (take (Z.to_nat ks) (drop 12 data))) as [k'|] eqn:Hk;
    [|done].
  simpl.
  destruct (utf8_decode (take (Z.to_nat vs) _)) as [v'|] eqn:Hv; [|done].
  simpl. intros [= -> -> ->]. exists ks, vs.
  rewrite decode_header_cases in Hh. case_bool_decide as Hlen12; [|done].
  rewrite length_take in Hlen12.
  apply utf8_decode_length in Hk as Hlk. apply utf8_decode_length in Hv as Hlv.
  rewrite length_take in Hlk, Hlv. unfold len in *.
  rewrite length_drop in Hlen. repeat split; try done; lia.
Qed.

(** ** The loop of [__init__] *)

Lemma init_body_negative order (file_name : pystr) (w : world) :
  self_offset (self w) < 0 → fst (init_body order file_name w) = Raise OSError.
Proof.
  intros Hneg%Z.ltb_lt.
  unfold init_body, fh_seek, gets, lift, mbind, M_bind, file_seek. simpl.
  by rewrite Hneg.
Qed.

(** One round of the loop that does not raise: the record at
    [self.offset] is whole, the index gets its entry, and [self.offset]
    moves on by twelve plus the numbers of characters of the key and of
    the value. *)
Lemma init_body_Ok order (file_name : pystr) (w w2 : world) :
  init_body order file_name w = (Ok (), w2) →
  let o := self w in
  let off := self_offset o in
  let content := file_content (fs w) (h_name (self_file_handle o)) in
  ∃ t ks vs k v,
    0 ≤ off ∧ 0 ≤ ks ∧ 0 ≤ vs ∧ off + 12 + ks + vs ≤ len content
    ∧ decode_kv order (take (Z.to_nat (12 + ks + vs)) (drop (Z.to_nat off) content))
      = Ok (t, k, v)
    ∧ len k ≤ ks ∧ len v ≤ vs
    ∧ w2 = World (fs w)
             (mkDiskStorage (self_file_id o)
                (Handle (h_name (self_file_handle o)) (off + (12 + ks + vs)))
                (<[k := Entry file_name (len v)
                          (off + 12 + len k + len v - len v) t]> (self_keydir o))
                (off + 12 + len k + len v)).
Proof.
  intros Hb o off content.
  destruct (Z.lt_ge_cases off 0) as [Hneg|Hoff].
  { apply (init_body_negative order file_name) in Hneg. by rewrite Hb in Hneg. }
  pose proof (init_body_cases order file_name w Hoff) as Hcases. simpl in Hcases.
  fold o off content in Hcases.
  set (rest := drop (Z.to_nat off) content) in *.
  destruct (decode_header order (take 12 rest)) as [[[t ks] vs]|e] eqn:Hh;
    [|by rewrite Hb in Hcases].
  destruct (decode_kv order (take (Z.to_nat (12 + ks + vs)) rest))
    as [[[t' k] v]|e] eqn:Hkv; [|by rewrite Hb in Hcases].
  rewrite Hb in Hcases. injection Hcases as ->.
  apply decode_kv_inv in Hkv as Hinv.
  destruct Hinv as (ks' & vs' & Hh' & Hks & Hvs & Hlen & _ & _ & Hlk & Hlv).
  assert (0 ≤ ks ∧ 0 ≤ vs) as [Hks0 Hvs0].
  { rewrite decode_header_cases in Hh. case_bool_decide; [|done].
    injection Hh as <- <- <-.
    split; apply unpack_I_range. }
  rewrite take_take in Hh'.
  replace (12 `min` Z.to_nat (12 + ks + vs))%nat with 12%nat in Hh' by lia.
  rewrite Hh in Hh'. injection Hh' as <- <- <-.
  exists t, ks, vs, k, v.
  assert (off + 12 + ks + vs ≤ len content) as Hend.
  { unfold len in Hlen. rewrite length_take in Hlen. subst rest.
    rewrite length_drop in Hlen. unfold len. lia. }
  repeat split; try done. do 3 f_equal.
  unfold len in *. rewrite length_take. subst rest. rewrite length_drop. lia.
Qed.


(** The rule of the [while] loop: a property that the body keeps holds
    when the loop ends, and the loop ends only on a false condition. *)
Lemma init_loop_rule order (file_name : pystr) (I : world → Prop) :
  (∀ w w', I w → init_cond file_name w = (Ok true, w) →
           init_body order file_name w = (Ok (), w') → I w') →
  ∀ w w', I w → init_loop order file_name w = (Ok (), w') →
          I w' ∧ init_cond file_name w' = (Ok false, w').
Proof.
  intros Hbody w.
  remember (Z.to_nat (len (file_content (fs w) file_name) - self_offset (self w)))
    as n eqn:Hn.
  revert w Hn. induction n as [n IH] using lt_wf_ind. intros w -> w' HI.
  rewrite init_loop_step. pose proof (init_cond_cases file_name w) as Hc.
  destruct (fs w !! file_name) as [content|] eqn:Hf; rewrite Hc; [|done].
  destruct (Z.ltb_spec (self_offset (self w)) (len content)) as [Hlt|Hge].
  - destruct (init_body order file_name w) as [[[]|e] w2] eqn:Hb; [|done].
    pose proof (Hbody w w2 HI Hc Hb) as HI2.
    intros Hloop. refine (IH _ _ w2 eq_refl w' HI2 Hloop).
    apply init_body_Ok in Hb as (t & ks & vs & k & v & Hoff & _ & _ & _ & _ & _ & _ & ->).
    simpl. unfold file_content. rewrite Hf. simpl.
    pose proof (len_nonneg k). pose proof (len_nonneg v). lia.
  - intros [= <-]. by rewrite Hc.
Qed.

(** ** Every engine state is well shaped *)

Lemma entry_ok_mono (name : pystr) (size size' : Z) (e : entry) :
  size ≤ size' → entry_ok name size e → entry_ok name size' e.
Proof. intros ? (? & ? & ? & ?). repeat split; (done || lia). Qed.

Lemma init_body_keeps_ok order (file_name : pystr) (w w' : world) :
  world_ok w → self_file_id (self w) = file_name →
  0 ≤ self_offset (self w) ≤ len (file_content (fs w) file_name) →
  init_body order file_name w = (Ok (), w') →
  world_ok w' ∧ self_file_id (self w') = file_name ∧ fs w' = fs w
  ∧ 0 ≤ self_offset (self w') ≤ len (file_content (fs w') file_name).
Proof.
  intros (Hh & content & Hf & Hkd) Hid Hoff Hb.
  apply init_body_Ok in Hb
    as (t & ks & vs & k & v & _ & Hks & Hvs & Hend & _ & Hlk & Hlv & ->).
  rewrite Hh, Hid in Hend. rewrite Hid in Hf. simpl.
  pose proof (len_nonneg k). pose proof (len_nonneg v).
  unfold file_content in *. rewrite Hf in *. simpl in *.
  split; [|repeat split; (done || lia)].
  split; [done|]. exists content. simpl. rewrite Hid. split; [done|].
  apply map_Forall_insert_2; [|by rewrite <- Hid].
  unfold entry_ok. simpl. repeat split; (done || lia).
Qed.

Lemma init_ok (order : byteorder) (file_name : pystr) (d d' : disk) (o : DiskStorage) :
  DiskStorage_init order file_name d = (Ok o, d') →
  world_ok (World d' o) ∧ self_file_id o = file_name
  ∧ d' = (match d !! file_name with Some _ => d | None => <[file_name := []]> d end)
  ∧ self_offset o = len (file_content d' file_name).
Proof.
  unfold DiskStorage_init, init_world, open_append.
  set (d1 := match d !! file_name with Some _ => d | None => <[file_name := []]> d end).
  set (w0 := World d1 _).
  destruct (init_loop order file_name w0) as [[[]|e] w1] eqn:Hloop; [|done].
  intros [= <- <-].
  assert (∃ content, d1 !! file_name = Some content) as [content Hf].
  { subst d1. destruct (d !! file_name) eqn:Hd; [eauto|].
    exists []. apply lookup_insert_eq. }
  pose (I := λ w : world,
    world_ok w ∧ self_file_id (self w) = file_name ∧ fs w = d1
    ∧ 0 ≤ self_offset (self w) ≤ len (file_content (fs w) file_name)).
  assert (I w0) as HI0.
  { subst I w0. simpl. unfold file_content. rewrite Hf. simpl.
    repeat split; try done; [|apply len_nonneg].
    exists content. split; [done|]. apply map_Forall_empty. }
  destruct (init_loop_rule order file_name I) with (w := w0) (w' := w1)
    as [(Hok & Hid & Hfs & Hoff) Hc]; [|done|done|].
  { intros w w' (Hok & Hid & Hfs & Hoff) _ Hb.
    destruct (init_body_keeps_ok order file_name w w' Hok Hid Hoff Hb)
      as (? & ? & Hfs' & ?).
    subst I. simpl. split_and!; (done || congruence || lia). }
  destruct w1 as [d1' o1]. simpl in *. subst d1'.
  do 3 (split; [done|]).
  rewrite init_cond_cases in Hc. simpl in Hc. unfold file_content in *.
  rewrite Hf in *. simpl in *. injection Hc as Hc%Z.ltb_ge. lia.
Qed.

Lemma encode_kv_length order (t : Z) (k v : pystr) (n : Z) (data : bytes) :
  encode_kv order t k v = Ok (n, data) → len data = 12 + len k + len v.
Proof.
  intros (kb & vb & Hkb & Hvb & _ & _ & _ & _ & ->)%encode_kv_inv.
  apply utf8_encode_length in Hkb, Hvb.
  rewrite record_bytes_length. simpl. unfold len.
  rewrite !length_take_le by done. done.
Qed.

Lemma set_keeps_ok order (now : Z) (key value : pystr) (r : result ()) (w w' : world) :
  world_ok w → DiskStorage_set order now key value w = (r, w') → world_ok w'.
Proof.
  intros (Hh & content & Hf & Hkd). rewrite set_cases.
  destruct (encode_kv order now key value) as [[n kv_data]|e] eqn:Henc;
    [|intros [= <- <-]; split; eauto].
  simpl. intros [= <- <-]. split; [done|]. simpl.
  rewrite Hh. unfold file_content. rewrite Hf. simpl.
  exists (content ++ kv_data). split; [apply lookup_insert_eq|].
  apply encode_kv_length in Henc.
  pose proof (len_nonneg value). pose proof (len_nonneg key).
  pose proof (len_nonneg content). rewrite len_app.
  apply map_Forall_insert_2.
  - unfold entry_ok. simpl. split_and!; (done || lia).
  - eapply map_Forall_impl; [exact Hkd|]. intros k e. simpl.
    apply entry_ok_mono. lia.
Qed.

Lemma get_keeps_state order (key : pystr) (r : result pystr) (w w' : world) :
  DiskStorage_get order key w = (r, w') → w' = w.
Proof. intros Hg. pose proof (get_state order key w) as Hs. by rewrite Hg in Hs. Qed.

Lemma reachable_ok order (w : world) : reachable order w → world_ok w.
Proof.
  induction 1 as [name d o d' Hinit|w now k v r w' _ IH Hset|w k r w' _ IH Hget].
  - by apply init_ok in Hinit as [? _].
  - by eapply set_keeps_ok.
  - by apply get_keeps_state in Hget as ->.
Qed.

Lemma fresh_engine_init order :
  DiskStorage_init order data_db {[data_db := []]}
  = (Ok (self fresh_engine), fs fresh_engine).
Proof. by destruct order; vm_compute. Qed.

Lemma fresh_engine_reachable order : reachable order fresh_engine.
Proof. eapply reach_init, fresh_engine_init. Qed.

(** ** [set] then [get] *)

(** After a [set] that returns, [get] of the same key decodes the value
    field of the record just written: the first [len(value)] bytes of
    the encoding of the value. *)
Lemma set_then_get order (w : world) (now : Z) (key value : pystr) (kb vb : bytes) :
  world_ok w →
  utf8_encode key = Ok kb → utf8_encode value = Ok vb →
  0 ≤ now ≤ UINT_MAX → len key ≤ UINT_MAX → len value ≤ UINT_MAX →
  ∃ w', DiskStorage_set order now key value w = (Ok (), w')
    ∧ fs w' = <[self_file_id (self w) :=
                 file_content (fs w) (self_file_id (self w))
                 ++ record_bytes order
                      (RawRecord now (take (length key) kb) (take (length value) vb))]>
               (fs w)
    ∧ DiskStorage_get order key w' = (utf8_decode (take (length value) vb), w').
Proof.
  intros (Hh & old & Hf & Hkd) Hkb Hvb Hnow Hlk Hlv.
  rewrite set_cases, (encode_kv_ok order now key value kb vb) by done.
  eexists. split; [done|]. simpl. rewrite Hh. split; [done|].
  unfold file_content. rewrite Hf. simpl.
  set (record := record_bytes order _).
  set (e := Entry _ _ _ _).
  apply utf8_encode_length in Hkb as Hkl, Hvb as Hvl.
  assert (len record = 12 + len key + len value) as Hrec.
  { subst record. rewrite record_bytes_length. simpl. unfold len.
    by rewrite !length_take_le. }
  pose proof (len_nonneg key). pose proof (len_nonneg value).
  pose proof (len_nonneg old).
  rewrite (get_hit order key _ e (old ++ record)); simpl.
  - do 2 f_equal.
    assert (∃ hk, record = hk ++ take (length value) vb
                  ∧ len hk = 12 + len key) as (hk & Hsplit & Hhk).
    { exists (pack_I order now ++ pack_I order (len (take (length key) kb))
              ++ pack_I order (len (take (length value) vb))
              ++ take (length key) kb).
      subst record. unfold record_bytes. simpl.
      split; [by rewrite <- !(assoc_L (++))|].
      rewrite !len_app. unfold len.
      rewrite !length_pack_I, length_take_le by done. lia. }
    rewrite Hsplit in Hrec |- *. rewrite (assoc_L (++)).
    rewrite drop_app_length'.
    + unfold len. rewrite Nat2Z.id. rewrite firstn_all2; [done|].
      by rewrite length_take_le.
    + rewrite !len_app in *. unfold len in *. rewrite length_app. lia.
  - apply lookup_insert_eq.
  - apply lookup_insert_eq.
  - unfold entry_ok. simpl. rewrite len_app. split_and!; (done || lia).
Qed.

(** A [set] that returns has appended one record to the log file. *)
Lemma set_Ok_inv order (w w' : world) (now : Z) (key value : pystr) :
  world_ok w →
  DiskStorage_set order now key value w = (Ok (), w') →
  ∃ old record,
    fs w !! self_file_id (self w) = Some old
    ∧ fs w' = <[self_file_id (self w) := old ++ record]> (fs w)
    ∧ len record = 12 + len key + len value
    ∧ decode_header order (take 12 record) = Ok (now, len key, len value).
Proof.
  intros (Hh & old & Hf & Hkd). rewrite set_cases.
  destruct (encode_kv order now key value) as [[n record]|e] eqn:Henc; [|done].
  simpl. intros [= <-]. exists old, record. simpl.
  rewrite Hh. unfold file_content at 1. rewrite Hf. simpl.
  split; [done|]. split; [done|].
  split; [by eapply encode_kv_length|].
  apply encode_kv_inv in Henc
    as (kb & vb & Hkb & Hvb & Ht & Hlk & Hlv & _ & ->).
  apply utf8_encode_length in Hkb, Hvb.
  pose proof (len_nonneg key). pose proof (len_nonneg value).
  unfold record_bytes. simpl. rewrite !(assoc_L (++)).
  rewrite <- (assoc_L (++) _ (take (length key) kb)).
  rewrite take_app_length' by (rewrite !length_app, !length_pack_I; done).
  rewrite <- !(assoc_L (++)).
  unfold len at 1 2. rewrite !length_take_le by done.
  apply decode_header_pack; unfold len in *; lia.
Qed.

(** Bytes appended to a file do not change what an entry inside the
    file reads. *)
Lemma read_entry_app (d : disk) (name : pystr) (old extra : bytes) (e : entry) :
  d !! name = Some old →
  entry_ok name (len old) e →
  fst (file_read (<[name := old ++ extra]> d)
         (Handle (file_id e) (value_pos e)) (value_sz e))
  = fst (file_read d (Handle (file_id e) (value_pos e)) (value_sz e)).
Proof.
  intros Hf (-> & Hsz & Hpos & Hend).
  unfold file_read, file_content. simpl.
  rewrite lookup_insert_eq, Hf. simpl.
  replace (value_sz e <? 0) with false by (symmetry; apply Z.ltb_ge; lia).
  unfold len in Hend.
  rewrite drop_app_le by lia. rewrite take_app_le; [done|].
  rewrite length_drop. lia.
Qed.

(** ** Replay of a log of whole records *)

Lemma log_bytes_cons order (r : raw_record) (rs : list raw_record) :
  log_bytes order (r :: rs) = record_bytes order r ++ log_bytes order rs.
Proof. done. Qed.

Lemma log_bytes_app order (rs1 rs2 : list raw_record) :
  log_bytes order (rs1 ++ rs2) = log_bytes order rs1 ++ log_bytes order rs2.
Proof. unfold log_bytes. by rewrite map_app, concat_app. Qed.

Lemma drop_len_app {A} (l1 l2 : list A) :
  drop (Z.to_nat (len l1)) (l1 ++ l2) = l2.
Proof. unfold len. by rewrite Nat2Z.id, drop_app_length. Qed.

(** One round of the loop on a whole record at [self.offset] whose key
    and value decode: [self.offset] moves on by twelve plus the numbers
    of characters of the decoded key and value. *)
Lemma init_body_at_record order (file_name : pystr) (w : world)
    (pre post : bytes) (r : raw_record) (k v : pystr) :
  h_name (self_file_handle (self w)) = file_name →
  fs w !! file_name = Some (pre ++ record_bytes order r ++ post) →
  self_offset (self w) = len pre →
  record_ok r →
  utf8_decode (r_key r) = Ok k → utf8_decode (r_value r) = Ok v →
  init_body order file_name w =
  (Ok (),
   World (fs w)
     (mkDiskStorage (self_file_id (self w))
        (Handle file_name (len pre + record_size r))
        (<[k := Entry file_name (len v) (len pre + 12 + len k + len v - len v)
                  (r_tstamp r)]> (self_keydir (self w)))
        (len pre + 12 + len k + len v))).
Proof.
  intros Hh Hf Hoff Hr Hk Hv.
  pose proof (init_body_cases order file_name w) as Hcases. simpl in Hcases.
  rewrite Hh, Hoff in Hcases. unfold file_content in Hcases.
  rewrite Hf in Hcases. simpl in Hcases.
  rewrite !drop_len_app in Hcases.
  specialize (Hcases (len_nonneg pre)).
  pose proof Hr as (Ht & Hlk & Hlv).
  pose proof (len_nonneg (r_key r)). pose proof (len_nonneg (r_value r)).
  assert (take 12 (record_bytes order r ++ post)
          = pack_I order (r_tstamp r) ++ pack_I order (len (r_key r))
            ++ pack_I order (len (r_value r))) as Hhead.
  { unfold record_bytes. rewrite <- !(assoc_L (++)).
    rewrite (assoc_L (++) (pack_I order (r_tstamp r))).
    rewrite (assoc_L (++) (_ ++ _) (pack_I order (len (r_value r)))).
    rewrite take_app_length'; [by rewrite <- !(assoc_L (++))|].
    by rewrite !length_app, !length_pack_I. }
  rewrite Hhead, decode_header_pack in Hcases by lia.
  assert (take (Z.to_nat (12 + len (r_key r) + len (r_value r)))
            (record_bytes order r ++ post) = record_bytes order r) as Hrec.
  { rewrite take_app_length'; [done|].
    pose proof (record_bytes_length order r) as Hlen. unfold len in *. lia. }
  rewrite Hrec, decode_kv_record, Hk, Hv in Hcases by done. simpl in Hcases.
  rewrite Hcases, record_bytes_length. done.
Qed.

Lemma text_length (b : bytes) : len (text b) = len b.
Proof. unfold text, len. by rewrite length_map. Qed.

(** The rounds of the loop over a log of whole ASCII records: round after
    round, [self.offset] goes from the start of a record to its end,
    and the loop goes on from the end of the last one. *)
Lemma init_rounds_ascii_log order (file_name : pystr) (rs : list raw_record) :
  ∀ (w : world) (pre post : bytes),
  h_name (self_file_handle (self w)) = file_name →
  fs w !! file_name = Some (pre ++ log_bytes order rs ++ post) →
  self_offset (self w) = len pre →
  Forall record_ok rs → Forall ascii_record rs →
  ∃ h',
    let w' := World (fs w)
                (mkDiskStorage (self_file_id (self w)) h'
                   (replay_index file_name (len pre) rs (self_keydir (self w)))
                   (len pre + len (log_bytes order rs))) in
    h_name h' = file_name
    ∧ init_rounds order file_name (length rs) w = (Ok (), w')
    ∧ init_loop order file_name w = init_loop order file_name w'.
Proof.
  induction rs as [|r rs IH]; intros w pre post Hh Hf Hoff Hok Hascii.
  - exists (self_file_handle (self w)). simpl.
    replace (len pre + len (log_bytes order [])) with (self_offset (self w))
      by (rewrite Hoff; unfold len; simpl; lia).
    by destruct w as [d []].
  - apply Forall_cons in Hok as [Hr Hok].
    apply Forall_cons in Hascii as [[Hak Hav] Hascii].
    rewrite log_bytes_cons, <- (assoc_L (++)) in Hf.
    pose proof (init_body_at_record order file_name w pre _ r _ _ Hh Hf Hoff Hr
                  (utf8_decode_ascii_bytes _ Hak) (utf8_decode_ascii_bytes _ Hav))
      as Hb.
    rewrite !text_length in Hb.
    set (w1 := World _ _) in Hb.
    destruct (IH w1 (pre ++ record_bytes order r) post) as (h' & Hh' & Hr' & Hl');
      subst w1; simpl; try done.
    + by rewrite <- (assoc_L (++)).
    + rewrite len_app, record_bytes_length. lia.
    + exists h'. simpl in *.
      rewrite log_bytes_cons, !len_app, record_bytes_length in *.
      unfold record_size in *.
      replace (len pre + 12 + len (r_key r) + len (r_value r) - len (r_value r))
        with (len pre + 12 + len (r_key r)) in * by lia.
      replace (len pre + (12 + len (r_key r) + len (r_value r) + len (log_bytes order rs)))
        with (len pre + (12 + len (r_key r) + len (r_value r)) + len (log_bytes order rs))
        by lia.
      split; [done|]. split.
      * unfold mbind, M_bind. rewrite Hb. exact Hr'.
      * rewrite init_loop_step, init_cond_cases, Hf.
        replace (self_offset (self w) <? _) with true; [by rewrite Hb|].
        symmetry. apply Z.ltb_lt. rewrite Hoff, !len_app, record_bytes_length.
        pose proof (len_nonneg (r_key r)). pose proof (len_nonneg (r_value r)).
        pose proof (len_nonneg (log_bytes order rs)). pose proof (len_nonneg post).
        lia.
Qed.

Lemma log_bytes_length order (rs : list raw_record) :
  12 * Z.of_nat (length rs) ≤ len (log_bytes order rs).
Proof.
  induction rs as [|r rs IH]; [done|].
  rewrite log_bytes_cons, len_app, record_bytes_length. simpl length.
  pose proof (len_nonneg (r_key r)). pose proof (len_nonneg (r_value r)). lia.
Qed.

Lemma init_world_existing (file_name : pystr) (d : disk) (content : bytes) :
  d !! file_name = Some content →
  init_world file_name d
  = World d (mkDiskStorage file_name (Handle file_name (len content)) ∅ 0).
Proof.
  intros Hf. unfold init_world, open_append, file_content.
  rewrite Hf. simpl. by rewrite Hf.
Qed.

(** The loop started at the end of the file returns at once. *)
Lemma init_loop_at_end order (file_name : pystr) (w : world) (content : bytes) :
  fs w !! file_name = Some content →
  len content ≤ self_offset (self w) →
  init_loop order file_name w = (Ok (), w).
Proof.
  intros Hf Hoff. rewrite init_loop_step, init_cond_cases, Hf.
  by replace (self_offset (self w) <? len content) with false
    by (symmetry; apply Z.ltb_ge; lia).
Qed.

(** The whole replay of a log of whole ASCII records. *)
Lemma init_ascii_log (order : byteorder) (file_name : pystr) (d : disk) (rs : list raw_record) :
  d !! file_name = Some (log_bytes order rs) →
  Forall record_ok rs → Forall ascii_record rs →
  ∃ h, h_name h = file_name
    ∧ DiskStorage_init order file_name d
      = (Ok (mkDiskStorage file_name h (replay_index file_name 0 rs ∅)
               (len (log_bytes order rs))), d).
Proof.
  intros Hf Hok Hascii. unfold DiskStorage_init.
  rewrite (init_world_existing _ _ _ Hf).
  set (w0 := World _ _).
  destruct (init_rounds_ascii_log order file_name rs w0 [] [])
    as (h & Hh & _ & Hloop); try done.
  { simpl. by rewrite app_nil_r. }
  exists h. split; [done|]. rewrite Hloop. simpl.
  erewrite init_loop_at_end; simpl; [done..|]. unfold len at 2. simpl. lia.
Qed.

(** ** The index and the store of a log *)

Lemma bytes_text (b : bytes) : map byte_of_N (text b) = b.
Proof.
  unfold text. rewrite <- list_fmap_compose. rewrite <- (list_fmap_id b) at 2.
  apply list_fmap_ext. intros _ x _. apply byte_of_N_to_N.
Qed.

Lemma text_bytes (s : pystr) : ascii s → text (map byte_of_N s) = s.
Proof.
  intros Hs. apply utf8_decode_ascii in Hs as Hd.
  rewrite utf8_decode_ascii_bytes in Hd by by apply ascii_bytes_of_ascii.
  by injection Hd.
Qed.

Lemma ascii_text (b : bytes) : ascii_bytes b → ascii (text b).
Proof. unfold ascii, ascii_bytes, text. by rewrite Forall_fmap. Qed.

Lemma record_size_length order (r : raw_record) :
  len (record_bytes order r) = record_size r.
Proof. apply record_bytes_length. Qed.

Lemma replay_index_app order (file_name : pystr) (rs1 rs2 : list raw_record) :
  ∀ start keydir,
  replay_index file_name start (rs1 ++ rs2) keydir
  = replay_index file_name (start + len (log_bytes order rs1)) rs2
      (replay_index file_name start rs1 keydir).
Proof.
  induction rs1 as [|r rs1 IH]; intros start keydir; simpl.
  - f_equal. unfold len. simpl. lia.
  - rewrite IH, log_bytes_cons, len_app, record_size_length. f_equal. lia.
Qed.

Lemma log_model_app (rs1 rs2 : list raw_record) (m : gmap pystr pystr) :
  log_model (rs1 ++ rs2) m = log_model rs2 (log_model rs1 m).
Proof. revert m. induction rs1 as [|r rs1 IH]; intros m; simpl; [done|apply IH]. Qed.

(** The index that the records of a log call for agrees with the store
    they stand for. *)
Lemma replay_index_agrees order (file_name : pystr) (rs : list raw_record) :
  ∀ (pre post : bytes) (keydir : gmap pystr entry) (m : gmap pystr pystr),
  Forall ascii_record rs →
  index_agrees file_name (pre ++ log_bytes order rs ++ post) keydir m →
  index_agrees file_name (pre ++ log_bytes order rs ++ post)
    (replay_index file_name (len pre) rs keydir) (log_model rs m).
Proof.
  induction rs as [|r rs IH]; intros pre post keydir m Hascii Hagree; [done|].
  apply Forall_cons in Hascii as [[Hak Hav] Hascii]. simpl.
  rewrite log_bytes_cons, <- (assoc_L (++)), (assoc_L (++) pre) in Hagree |- *.
  replace (len pre + record_size r) with (len (pre ++ record_bytes order r))
    by (by rewrite len_app, record_size_length).
  apply IH; [done|].
  set (content := (pre ++ record_bytes order r) ++ log_bytes order rs ++ post)
    in *.
  intros key. destruct (decide (key = text (r_key r))) as [->|Hne].
  - rewrite !lookup_insert_eq. eexists. split; [done|].
    pose proof (len_nonneg pre). pose proof (len_nonneg (r_key r)).
    pose proof (len_nonneg (r_value r)).
    pose proof (len_nonneg (log_bytes order rs ++ post)).
    assert (len content = len pre + record_size r
                          + len (log_bytes order rs ++ post)) as Hlen.
    { subst content. by rewrite !len_app, record_size_length. }
    split; [unfold entry_ok, record_size in *; simpl; split_and!; (done || lia)|].
    split; [|by apply ascii_text].
    simpl. rewrite bytes_text.
    assert (content = (pre ++ pack_I order (r_tstamp r)
                        ++ pack_I order (len (r_key r))
                        ++ pack_I order (len (r_value r)) ++ r_key r)
                      ++ r_value r ++ log_bytes order rs ++ post) as ->.
    { subst content. unfold record_bytes. by rewrite <- !(assoc_L (++)). }
    rewrite drop_app_length'.
    + unfold len. by rewrite Nat2Z.id, take_app_length.
    + rewrite !length_app, !length_pack_I. unfold len. lia.
  - rewrite !lookup_insert_ne by done. apply Hagree.
Qed.

(** ** Engines on ASCII text *)

(** On a run on ASCII text the log file is the log of the records of the
    run, and the index is the one these records call for. *)
Lemma ascii_run_inv order (file_name : pystr) (w : world) (rs : list raw_record) :
  ascii_run order file_name w rs →
  self_file_id (self w) = file_name
  ∧ h_name (self_file_handle (self w)) = file_name
  ∧ fs w !! file_name = Some (log_bytes order rs)
  ∧ Forall record_ok rs ∧ Forall ascii_record rs
  ∧ self_keydir (self w) = replay_index file_name 0 rs ∅.
Proof.
  induction 1 as [d rs o d' Hf Hok Hascii Hinit
                 |w rs now k v w' _ IH Hk Hv Hset
                 |w rs now k v e w' _ IH Hset
                 |w rs k r w' _ IH Hget].
  - unfold file_content in Hf. destruct (d !! file_name) as [c|] eqn:Hd.
    + simpl in Hf. subst c.
      destruct (init_ascii_log order file_name d rs Hd Hok Hascii)
        as (h & Hh & Hi).
      rewrite Hi in Hinit. injection Hinit as <- <-. by simpl.
    + simpl in Hf. pose proof (log_bytes_length order rs) as Hlen.
      rewrite <- Hf in Hlen. unfold len in Hlen. simpl in Hlen.
      destruct rs; [|simpl in Hlen; lia].
      unfold DiskStorage_init, init_world, open_append in Hinit.
      rewrite Hd in Hinit. unfold file_content in Hinit.
      rewrite lookup_insert_eq in Hinit. simpl in Hinit.
      erewrite init_loop_at_end in Hinit;
        [|apply lookup_insert_eq|done].
      injection Hinit as <- <-. simpl.
      split_and!; try done. apply lookup_insert_eq.
  - destruct IH as (Hid & Hh & Hf & Hok & Hascii & Hkd).
    apply set_cases_Ok in Hset as (n & data & Henc & ->).
    pose proof Henc as (_ & _ & _ & _ & Ht & Hlk & Hlv & _ & _)%encode_kv_inv.
    rewrite encode_kv_ascii in Henc by done. injection Henc as _ <-.
    simpl. rewrite Hh, Hid. unfold file_content. rewrite Hf. simpl.
    set (r := RawRecord now _ _).
    assert (log_bytes order (rs ++ [r])
            = log_bytes order rs ++ record_bytes order r) as Hlog.
    { rewrite log_bytes_app. unfold log_bytes at 2. simpl. by rewrite app_nil_r. }
    split_and!; try done.
    + rewrite Hlog. apply lookup_insert_eq.
    + apply Forall_app. split; [done|]. constructor; [|done].
      unfold record_ok, len in *. simpl. rewrite !length_map. lia.
    + apply Forall_app. split; [done|]. constructor; [|done].
      split; simpl; by apply ascii_bytes_of_ascii.
    + rewrite (replay_index_app order), <- Hkd. simpl.
      rewrite text_bytes by done. do 2 f_equal;
        rewrite ?len_app, ?record_bytes_length; unfold len; simpl;
        rewrite ?length_map; lia.
  - apply set_cases_Raise in Hset as ->. exact IH.
  - apply get_keeps_state in Hget as ->. exact IH.
Qed.

Lemma ascii_run_agrees order (file_name : pystr) (w : world) (rs : list raw_record) :
  ascii_run order file_name w rs →
  index_agrees file_name (log_bytes order rs) (self_keydir (self w))
    (log_model rs ∅).
Proof.
  intros (_ & _ & _ & _ & Hascii & ->)%ascii_run_inv.
  pose proof (replay_index_agrees order file_name rs [] [] ∅ ∅ Hascii) as Hagree.
  simpl in Hagree. rewrite app_nil_r in Hagree. apply Hagree.
  intros key. by rewrite !lookup_empty.
Qed.

(** On a run on ASCII text, the entry of every key of the index points,
    in the log file, at the bytes of the value last stored for the key,
    and [get] returns that value. *)
Theorem ascii_run_index order (file_name : pystr) (w : world) (rs : list raw_record)
    (key : pystr) (e : entry) :
  ascii_run order file_name w rs →
  self_keydir (self w) !! key = Some e →
  ∃ value,
    log_model rs ∅ !! key = Some value
    ∧ file_id e = file_name
    ∧ fst (file_read (fs w) (Handle (file_id e) (value_pos e)) (value_sz e))
      = map byte_of_N value
    ∧ utf8_encode value = Ok (map byte_of_N value)
    ∧ DiskStorage_get order key w = (Ok value, w).
Proof.
  intros Hrun Hk. pose proof (ascii_run_agrees _ _ _ _ Hrun key) as Hagree.
  apply ascii_run_inv in Hrun as (_ & _ & Hf & _).
  destruct (log_model rs ∅ !! key) as [value|]; [|congruence].
  destruct Hagree as (e' & He' & Hok & Hbytes & Hascii).
  rewrite Hk in He'. injection He' as <-. exists value.
  pose proof Hok as (Hid & Hsz & _).
  split_and!; try done.
  - unfold file_read, file_content. simpl. rewrite Hid, Hf. simpl.
    by replace (value_sz e <? 0) with false by (symmetry; apply Z.ltb_ge; lia).
  - by apply utf8_encode_ascii.
  - rewrite <- Hid in Hf, Hok.
    rewrite (get_hit order key w e _ Hk Hf Hok), Hbytes.
    by rewrite utf8_decode_ascii.
Qed.

(** On a run on ASCII text, [get] returns what the store of the log has
    for the key, and the empty string when it has nothing. *)
Theorem ascii_run_get order (file_name : pystr) (w : world) (rs : list raw_record)
    (key : pystr) :
  ascii_run order file_name w rs →
  DiskStorage_get order key w = (Ok (default [] (log_model rs ∅ !! key)), w).
Proof.
  intros Hrun. pose proof (ascii_run_agrees _ _ _ _ Hrun key) as Hagree.
  destruct (log_model rs ∅ !! key) as [value|] eqn:Hm.
  - destruct Hagree as (e & He & _).
    destruct (ascii_run_index order file_name w rs key e Hrun He)
      as (value' & Hm' & _ & _ & _ & Hget).
    rewrite Hm in Hm'. injection Hm' as <-. exact Hget.
  - by apply get_miss.
Qed.

(** On a run on ASCII text, a new engine can be built on the log file at
    any time; its index is the index of the running engine. *)
Theorem ascii_run_reopen order (file_name : pystr) (w : world) (rs : list raw_record) :
  ascii_run order file_name w rs →
  ∃ o, DiskStorage_init order file_name (fs w) = (Ok o, fs w)
    ∧ self_keydir o = self_keydir (self w)
    ∧ ascii_run order file_name (World (fs w) o) rs.
Proof.
  intros (_ & _ & Hf & Hok & Hascii & Hkd)%ascii_run_inv.
  destruct (init_ascii_log order file_name (fs w) rs Hf Hok Hascii)
    as (h & Hh & Hinit).
  eexists. split; [exact Hinit|]. split; [by rewrite Hkd|].
  eapply run_open; [|done..]. unfold file_content. by rewrite Hf.
Qed.

(** Last write wins on ASCII text, in the running engine and in an
    engine built on the log file afterwards. *)
Theorem last_write_wins_ascii order (file_name : pystr) (w w1 w2 : world)
    (rs : list raw_record) (now1 now2 : Z) (key v1 v2 : pystr) :
  ascii_run order file_name w rs →
  ascii key → ascii v1 → ascii v2 →
  DiskStorage_set order now1 key v1 w = (Ok (), w1) →
  DiskStorage_set order now2 key v2 w1 = (Ok (), w2) →
  DiskStorage_get order key w2 = (Ok v2, w2)
  ∧ ∃ o, DiskStorage_init order file_name (fs w2) = (Ok o, fs w2)
      ∧ DiskStorage_get order key (World (fs w2) o) = (Ok v2, World (fs w2) o).
Proof.
  intros Hrun Hk Hv1 Hv2 Hset1 Hset2.
  pose proof (run_set _ _ _ _ _ _ _ _ Hrun Hk Hv1 Hset1) as Hrun1.
  pose proof (run_set _ _ _ _ _ _ _ _ Hrun1 Hk Hv2 Hset2) as Hrun2.
  assert (∀ w', ascii_run order file_name w'
                  ((rs ++ [RawRecord now1 (map byte_of_N key) (map byte_of_N v1)])
                   ++ [RawRecord now2 (map byte_of_N key) (map byte_of_N v2)]) →
                DiskStorage_get order key w' = (Ok v2, w')) as Hget.
  { intros w' Hrun'. rewrite (ascii_run_get order file_name w' _ key Hrun').
    rewrite log_model_app. simpl.
    by rewrite !text_bytes, lookup_insert_eq by done. }
  split; [by apply Hget|].
  destruct (ascii_run_reopen order file_name w2 _ Hrun2) as (o & Hinit & _ & Hrun').
  exists o. split; [done|]. by apply Hget.
Qed.

Lemma fresh_engine_ascii_run order : ascii_run order data_db fresh_engine [].
Proof.
  apply (run_open order data_db {[data_db := []]} [] _ _);
    [done|constructor|constructor|apply fresh_engine_init].
Qed.

(** ** A log cut inside a record *)

Lemma decode_kv_wrong_size order (data : bytes) (t ks vs : Z) :
  decode_header order (take 12 data) = Ok (t, ks, vs) →
  len data ≠ 12 + ks + vs →
  decode_kv order data = Raise StructError.
Proof.
  intros Hh Hlen. unfold decode_kv, slice_to, slice_from. rewrite Hh. simpl.
  rewrite decode_header_cases in Hh. case_bool_decide as H12; [|done].
  rewrite length_take in H12.
  unfold struct_unpack. simpl.
  replace (len (drop 12 data) =? ks + (vs + 0)) with false;
    [by rewrite !andb_false_r|].
  symmetry. apply Z.eqb_neq. unfold len in *. rewrite length_drop. lia.
Qed.

(** A log of whole ASCII records followed by a record that is cut, in
    its header or in its key and value: the construction of the engine
    raises [struct.error]. *)
Theorem init_truncated_ascii_log (order : byteorder) (file_name : pystr) (d : disk)
    (rs : list raw_record) (partial : bytes) :
  d !! file_name = Some (log_bytes order rs ++ partial) →
  Forall record_ok rs → Forall ascii_record rs →
  partial ≠ [] →
  match decode_header order (take 12 partial) with
  | Ok (_, ks, vs) => len partial < 12 + ks + vs
  | Raise _ => True
  end →
  fst (DiskStorage_init order file_name d) = Raise StructError.
Proof.
  intros Hf Hok Hascii Hne Hcut. unfold DiskStorage_init.
  rewrite (init_world_existing _ _ _ Hf).
  set (w0 := World _ _).
  destruct (init_rounds_ascii_log order file_name rs w0 [] partial)
    as (h & Hh & _ & Hloop); try done.
  rewrite Hloop. clear Hloop. simpl. set (w1 := World _ _).
  assert (fst (init_body order file_name w1) = Raise StructError) as Hb.
  { pose proof (init_body_cases order file_name w1) as Hcases.
    simpl in Hcases. rewrite Hh in Hcases. unfold file_content in Hcases.
    rewrite Hf in Hcases. simpl in Hcases.
    replace (len [] + len (log_bytes order rs)) with (len (log_bytes order rs))
      in Hcases by (unfold len; simpl; lia).
    rewrite !drop_len_app in Hcases. specialize (Hcases (len_nonneg _)).
    destruct (decode_header order (take 12 partial)) as [[[t ks] vs]|e] eqn:Hhd.
    - rewrite firstn_all2 in Hcases by (unfold len in Hcut; lia).
      by rewrite (decode_kv_wrong_size order partial t ks vs) in Hcases by (done || lia).
    - rewrite decode_header_cases in Hhd. case_bool_decide; [done|].
      by injection Hhd as <-. }
  rewrite init_loop_step, init_cond_cases. simpl. rewrite Hf.
  replace (len [] + len (log_bytes order rs) <? len (log_bytes order rs ++ partial))
    with true.
  - destruct (init_body order file_name w1) as [[[]|e] w2]; simpl in Hb; [done|].
    by injection Hb as ->.
  - symmetry. apply Z.ltb_lt. rewrite len_app. unfold len. simpl.
    destruct partial; [done|simpl; lia].
Qed.

(** * The claims *)

(** C9. [decode_header] returns a triple exactly when its input has
    twelve bytes, and raises [struct.error] for every other length,
    longer inputs as well as shorter ones. *)
Theorem decode_header_requires_12 order (data : bytes) :
  (length data = 12%nat
   ∧ ∃ t ks vs, decode_header order data = Ok (t, ks, vs))
  ∨ (length data ≠ 12%nat
     ∧ decode_header order data = Raise StructError).
Proof.
  rewrite decode_header_cases. case_bool_decide; [left|right]; eauto.
Qed.

(** C6. [get] of a key that is not in the index returns the empty string
    and leaves the disk and the object as they were. *)
Theorem get_missing_key order (w : world) (key : pystr) :
  self_keydir (self w) !! key = None →
  DiskStorage_get order key w = (Ok [], w).
Proof. apply get_miss. Qed.

Lemma get_missing_key_fresh :
  DiskStorage_init Little data_db {[data_db := []]}
  = (Ok (self fresh_engine), fs fresh_engine)
  ∧ DiskStorage_get Little (str "nonexistent") fresh_engine = (Ok [], fresh_engine).
Proof.
  split; [apply fresh_engine_init|].
  apply (get_missing_key Little fresh_engine (str "nonexistent")).
  vm_compute. reflexivity.
Defined.

(** C7. A [set] that returns appends one record of
    [12 + len(key) + len(value)] bytes, whose header declares these two
    sizes, to the end of the log file; the bytes that were in the file
    stay where they were, so every index entry reads the same bytes
    after the call as before it. *)
Theorem set_appends_one_record order (w w' : world) (now : Z) (key value : pystr) :
  reachable order w →
  DiskStorage_set order now key value w = (Ok (), w') →
  ∃ old record,
    fs w !! self_file_id (self w) = Some old
    ∧ fs w' = <[self_file_id (self w) := old ++ record]> (fs w)
    ∧ len record = 12 + len key + len value
    ∧ decode_header order (take 12 record) = Ok (now, len key, len value)
    ∧ ∀ k e, self_keydir (self w) !! k = Some e →
        fst (file_read (fs w') (Handle (file_id e) (value_pos e)) (value_sz e))
        = fst (file_read (fs w) (Handle (file_id e) (value_pos e)) (value_sz e)).
Proof.
  intros Hok%reachable_ok Hset.
  destruct (set_Ok_inv order w w' now key value Hok Hset)
    as (old & record & Hf & Hfs & Hlen & Hh).
  exists old, record. split_and!; try done.
  intros k e Hk. rewrite Hfs. apply read_entry_app; [done|].
  destruct Hok as (_ & old' & Hf' & Hkd). rewrite Hf in Hf'.
  injection Hf' as <-. by apply Hkd in Hk.
Qed.

Lemma set_appends_one_record_overwrite :
  let w1 := snd (DiskStorage_set Little 1000 (str "k") (str "v1") fresh_engine) in
  let w2 := snd (DiskStorage_set Little 1001 (str "k") (str "v2") w1) in
  ∃ old record,
    fs w1 !! self_file_id (self w1) = Some old
    ∧ fs w2 = <[self_file_id (self w1) := old ++ record]> (fs w1)
    ∧ len record = 12 + len (str "k") + len (str "v2")
    ∧ decode_header Little (take 12 record) = Ok (1001, len (str "k"), len (str "v2"))
    ∧ ∀ k e, self_keydir (self w1) !! k = Some e →
        fst (file_read (fs w2) (Handle (file_id e) (value_pos e)) (value_sz e))
        = fst (file_read (fs w1) (Handle (file_id e) (value_pos e)) (value_sz e)).
Proof.
  intros w1 w2.
  apply (set_appends_one_record Little w1 w2 1001 (str "k") (str "v2")).
  - apply (reach_set Little fresh_engine 1000 (str "k") (str "v1") (Ok ()) w1).
    + apply fresh_engine_reachable.
    + vm_compute. reflexivity.
  - vm_compute. reflexivity.
Defined.

(** C8. On an engine state, [set] of one key leaves the index entry of
    every other key as it was, and [get] of the other key returns after
    the call what it returned before. *)
Theorem set_frames_other_keys order (w w' : world) (now : Z) (k1 k2 v : pystr)
    (r : result ()) :
  reachable order w →
  k1 ≠ k2 →
  DiskStorage_set order now k1 v w = (r, w') →
  self_keydir (self w') !! k2 = self_keydir (self w) !! k2
  ∧ fst (DiskStorage_get order k2 w') = fst (DiskStorage_get order k2 w).
Proof.
  intros (Hh & old & Hf & Hkd)%reachable_ok Hne. rewrite set_cases.
  destruct (encode_kv order now k1 v) as [[n record]|e] eqn:Henc;
    [|by intros [= <- <-]].
  simpl. intros [= <- <-]. simpl.
  rewrite lookup_insert_ne by done. split; [done|].
  destruct (self_keydir (self w) !! k2) as [e|] eqn:Hk2.
  - pose proof (Hkd _ _ Hk2) as Hok. simpl in Hok.
    pose proof Hok as (Hid & Hsz & Hpos & Hend).
    rewrite <- Hid in Hf, Hok, Hh.
    rewrite (get_hit order k2 w e old) by done.
    rewrite (get_hit order k2 _ e (old ++ record)); simpl.
    + unfold len in Hend. rewrite drop_app_le by lia.
      rewrite take_app_le; [done|]. rewrite length_drop. lia.
    + by rewrite lookup_insert_ne.
    + rewrite Hh. unfold file_content. rewrite Hf. simpl.
      apply lookup_insert_eq.
    + eapply entry_ok_mono; [|exact Hok]. rewrite len_app.
      pose proof (len_nonneg record). lia.
  - rewrite !get_miss; simpl; [done..|]. by rewrite lookup_insert_ne.
Qed.

Lemma set_frames_other_keys_hamlet :
  let w1 := snd (DiskStorage_set Little 1000 (str "hamlet") (str "shakespeare")
                   fresh_engine) in
  let w2 := snd (DiskStorage_set Little 1001 (str "othello") (str "shakespeare") w1) in
  self_keydir (self w2) !! str "hamlet" = self_keydir (self w1) !! str "hamlet"
  ∧ fst (DiskStorage_get Little (str "hamlet") w2)
    = fst (DiskStorage_get Little (str "hamlet") w1).
Proof.
  intros w1 w2.
  apply (set_frames_other_keys Little w1 w2 1001 (str "othello") (str "hamlet")
           (str "shakespeare") (Ok ())).
  - apply (reach_set Little fresh_engine 1000 (str "hamlet") (str "shakespeare")
             (Ok ()) w1).
    + apply fresh_engine_reachable.
    + vm_compute. reflexivity.
  - vm_compute. discriminate.
  - vm_compute. reflexivity.
Defined.

(** C10, as the code has it.  On an engine state, for every value that
    [str.encode] accepts and that has at most [UINT_MAX] characters, and
    a clock within 32 bits, [set("", value)] returns, appending a record
    whose header declares a key size of 0; when the value is ASCII, a
    following [get("")] returns it. *)
Theorem set_get_empty_key order (w : world) (now : Z) (value : pystr) (vb : bytes) :
  reachable order w →
  utf8_encode value = Ok vb →
  0 ≤ now ≤ UINT_MAX → len value ≤ UINT_MAX →
  ∃ w' old record,
    DiskStorage_set order now [] value w = (Ok (), w')
    ∧ fs w !! self_file_id (self w) = Some old
    ∧ fs w' = <[self_file_id (self w) := old ++ record]> (fs w)
    ∧ decode_header order (take 12 record) = Ok (now, 0, len value)
    ∧ (ascii value → DiskStorage_get order [] w' = (Ok value, w')).
Proof.
  intros Hreach Hvb Hnow Hlv.
  pose proof (reachable_ok order w Hreach) as Hok.
  destruct (set_then_get order w now [] value [] vb Hok eq_refl Hvb Hnow)
    as (w' & Hset & Hfs & Hget); [done..|].
  destruct Hok as (_ & old & Hf & _).
  unfold file_content in Hfs. rewrite Hf in Hfs. simpl in Hfs.
  eexists w', old, _. split; [done|]. split; [done|]. split; [done|].
  split.
  - destruct (set_Ok_inv order w w' now [] value
                (reachable_ok order w Hreach) Hset)
      as (old' & record' & Hf' & Hfs' & _ & Hh).
    rewrite Hf in Hf'. injection Hf' as <-.
    rewrite Hfs in Hfs'.
    apply (f_equal (λ d : disk, d !! self_file_id (self w))) in Hfs'.
    rewrite !lookup_insert_eq in Hfs'. injection Hfs' as <-%(inj (app old)).
    exact Hh.
  - intros Hascii. rewrite Hget.
    rewrite (utf8_encode_ascii value Hascii) in Hvb. injection Hvb as <-.
    rewrite firstn_all2 by (by rewrite length_map).
    by rewrite utf8_decode_ascii.
Qed.

Lemma set_get_empty_key_fresh :
  ∃ w', DiskStorage_set Little 1000 [] (str "shakespeare") fresh_engine = (Ok (), w')
        ∧ DiskStorage_get Little [] w' = (Ok (str "shakespeare"), w').
Proof.
  destruct (set_get_empty_key Little fresh_engine 1000 (str "shakespeare")
              (map byte_of_N (str "shakespeare")))
    as (w' & old & record & Hset & _ & _ & _ & Hget).
  - apply fresh_engine_reachable.
  - vm_compute. reflexivity.
  - unfold UINT_MAX. lia.
  - vm_compute. discriminate.
  - exists w'. split; [exact Hset|]. apply Hget.
    repeat constructor.
Defined.

(** C10 as stated fails: a value with a lone surrogate is a [str], and
    [set("", value)] raises [UnicodeEncodeError] on it, writing nothing. *)
Lemma set_empty_key_lone_surrogate :
  DiskStorage_set Little 1000 [] [55296%N] fresh_engine
  = (Raise UnicodeEncodeError, fresh_engine).
Proof. vm_compute. reflexivity. Qed.

(** C1, where the code departs from it.  [encode_kv] sizes the key field
    by [len(key)], the number of characters, and [struct.pack] cuts the
    UTF-8 bytes to that size: the key ["é"] (U+00E9, two bytes) is
    written as the single byte 0xC3, with a declared key size of 1, and
    [decode_kv] of the result raises [UnicodeDecodeError]. *)
Theorem decode_encode_kv_e_acute order :
  encode_kv order 0 [233%N] []
  = Ok (1, pack_I order 0 ++ pack_I order 1 ++ pack_I order 0 ++ [xc3])
  ∧ utf8_encode [233%N] = Ok [xc3; xa9]
  ∧ decode_kv order (pack_I order 0 ++ pack_I order 1 ++ pack_I order 0 ++ [xc3])
    = Raise UnicodeDecodeError.
Proof. by destruct order; vm_compute. Qed.

(** C2, where the code departs from it.  After [set("k", "éa")] on a
    fresh engine the index entry of ["k"] has [value_sz = 2], the number
    of characters, and points at the two bytes 0xC3 0xA9, the first two
    of the three bytes of the value: [get("k")] returns ["é"]. *)
Theorem get_after_set_non_ascii order :
  let value := [233%N; 97%N] in
  let w1 := snd (DiskStorage_set order 1000 (str "k") value fresh_engine) in
  fst (DiskStorage_set order 1000 (str "k") value fresh_engine) = Ok ()
  ∧ self_keydir (self w1) !! str "k" = Some (Entry data_db 2 13 1000)
  ∧ fst (file_read (fs w1) (Handle data_db 13) 2) = [xc3; xa9]
  ∧ DiskStorage_get order (str "k") w1 = (Ok [233%N], w1).
Proof. by destruct order; vm_compute. Qed.

(** C3, where the code departs from it.  After [set("k", "v1")] and
    [set("k", "é")] on a fresh engine, [get("k")] raises
    [UnicodeDecodeError], and so does the construction of a new engine
    on the same file. *)
Theorem last_write_non_ascii order :
  let w1 := snd (DiskStorage_set order 1000 (str "k") (str "v1") fresh_engine) in
  let w2 := snd (DiskStorage_set order 1001 (str "k") [233%N] w1) in
  fst (DiskStorage_set order 1000 (str "k") (str "v1") fresh_engine) = Ok ()
  ∧ fst (DiskStorage_set order 1001 (str "k") [233%N] w1) = Ok ()
  ∧ fst (DiskStorage_get order (str "k") w2) = Raise UnicodeDecodeError
  ∧ fst (DiskStorage_init order data_db (fs w2)) = Raise UnicodeDecodeError.
Proof. by destruct order; vm_compute. Qed.

(** C4, where the code departs from it.  The log of the two records
    (key bytes 0xC3 0xA9, empty value) and (empty key, empty value), cut
    one byte before its end, inside the header of the second record: the
    loop of [__init__] moves [self.offset] on by 13 for the first record,
    whose length is 14, reads the twelve bytes from offset 13 as a header
    that declares two empty fields, and ends at the end of the file.
    The engine is constructed. *)
Theorem truncated_log_opens order :
  let log := record_bytes order (RawRecord 1 [xc3; xa9] [])
             ++ take 11 (record_bytes order (RawRecord 0 [] [])) in
  ∃ o, fst (DiskStorage_init order data_db {[data_db := log]}) = Ok o
       ∧ self_offset o = 25
       ∧ file_id <$> self_keydir o !! [233%N] = Some data_db
       ∧ value_pos <$> self_keydir o !! [233%N] = Some 13
       ∧ value_pos <$> self_keydir o !! [] = Some 25.
Proof. destruct order; eexists; vm_compute; split_and!; reflexivity. Qed.

(** C5, as the code has it.  On a log that is a concatenation of whole
    records whose key and value bytes are all ASCII, the loop of
    [__init__] goes through the records one by one: after [i] rounds
    [self.offset] is the end of the [i]-th record, which is the start of
    the next one, the loop goes on as long as a record is left, and the
    engine is constructed with [self.offset] at the end of the file and
    an index entry for the value of every record. *)
Theorem replay_ascii_log_gapless (order : byteorder) (file_name : pystr) (d : disk)
    (rs : list raw_record) :
  d !! file_name = Some (log_bytes order rs) →
  Forall record_ok rs → Forall ascii_record rs →
  (∀ i, (i ≤ length rs)%nat →
     ∃ wi, init_rounds order file_name i (init_world file_name d) = (Ok (), wi)
       ∧ self_offset (self wi) = len (log_bytes order (take i rs))
       ∧ fst (init_cond file_name wi) = Ok (bool_decide (i < length rs)%nat))
  ∧ ∃ o, DiskStorage_init order file_name d = (Ok o, d)
      ∧ self_offset o = len (log_bytes order rs)
      ∧ self_keydir o = replay_index file_name 0 rs ∅.
Proof.
  intros Hf Hok Hascii. split.
  - intros i Hi. rewrite (init_world_existing _ _ _ Hf).
    set (w0 := World _ _).
    destruct (init_rounds_ascii_log order file_name (take i rs) w0 []
                (log_bytes order (drop i rs)))
      as (h & Hh & Hr & _); try done.
    + simpl. by rewrite <- log_bytes_app, take_drop.
    + by apply Forall_take.
    + by apply Forall_take.
    + rewrite length_take_le in Hr by done. eexists. split; [exact Hr|].
      simpl. split; [unfold len at 1; simpl; lia|].
      rewrite init_cond_cases. simpl. rewrite Hf. f_equal.
      rewrite <- (take_drop i rs) at 2. rewrite log_bytes_app, len_app.
      unfold len at 1. simpl.
      pose proof (log_bytes_length order (drop i rs)) as Hlen.
      rewrite length_drop in Hlen.
      case_bool_decide.
      * apply Z.ltb_lt. lia.
      * apply Z.ltb_ge. replace (drop i rs) with (@nil raw_record);
          [unfold len; simpl; lia|].
        symmetry. apply drop_ge. lia.
  - destruct (init_ascii_log order file_name d rs Hf Hok Hascii) as (h & _ & ->).
    eauto.
Qed.

Lemma replay_ascii_log_two_records :
  let rs := [RawRecord 1000 (map byte_of_N (str "hamlet"))
               (map byte_of_N (str "shakespeare"));
             RawRecord 1001 (map byte_of_N (str "k")) (map byte_of_N (str "v"))] in
  let d : disk := {[data_db := log_bytes Little rs]} in
  (∀ i, (i ≤ length rs)%nat →
     ∃ wi, init_rounds Little data_db i (init_world data_db d) = (Ok (), wi)
       ∧ self_offset (self wi) = len (log_bytes Little (take i rs))
       ∧ fst (init_cond data_db wi) = Ok (bool_decide (i < length rs)%nat))
  ∧ ∃ o, DiskStorage_init Little data_db d = (Ok o, d)
      ∧ self_offset o = len (log_bytes Little rs)
      ∧ self_keydir o = replay_index data_db 0 rs ∅.
Proof.
  intros rs d. apply (replay_ascii_log_gapless Little data_db d rs).
  - apply lookup_singleton_eq.
  - repeat constructor; vm_compute; discriminate.
  - repeat constructor; vm_compute; reflexivity.
Defined.

(** C5 as stated fails: a log of two whole records, the first with the
    key byte 0xFF, which is not UTF-8.  The first round raises
    [UnicodeDecodeError] and the second record is never visited. *)
Lemma replay_non_utf8_key_raises :
  fst (DiskStorage_init Little data_db
         {[data_db := log_bytes Little
                        [RawRecord 1000 [xff] [];
                         RawRecord 1001 (map byte_of_N (str "k"))
                           (map byte_of_N (str "v"))]]})
  = Raise UnicodeDecodeError.
Proof. vm_compute. reflexivity. Qed.

(** The other way C5 fails, which the statement above leaves out: the log
    that [set("éa", "x")] writes is one whole record of 15 bytes; the
    loop moves [self.offset] on to 14, reads the last byte as a header
    and raises [struct.error]. *)
Lemma replay_multibyte_key_misaligned order :
  let w1 := snd (DiskStorage_set order 1000 [233%N; 97%N] (str "x") fresh_engine) in
  let log := log_bytes order [RawRecord 1000 [xc3; xa9] (map byte_of_N (str "x"))] in
  fs w1 = {[data_db := log]}
  ∧ len log = 15
  ∧ self_offset (self (snd (init_rounds order data_db 1 (init_world data_db (fs w1)))))
    = 14
  ∧ fst (DiskStorage_init order data_db (fs w1)) = Raise StructError.
Proof. by destruct order; vm_compute. Qed.

(** * Further properties of the code *)

(** ** format.py *)

Lemma struct_pack_raises order (fmt : list fmt_code) (args : list sval) (e : exn) :
  struct_pack order fmt args = Raise e → e = StructError.
Proof.
  revert args. induction fmt as [|c fmt IH]; intros args.
  - destruct args; simpl; congruence.
  - destruct c, args as [|[] args]; simpl; try congruence.
    + destruct ((0 <=? z) && (z <=? UINT_MAX)); [|congruence].
      destruct (struct_pack order fmt args) eqn:Hrest; simpl; [done|].
      intros [= <-]. by eapply IH.
    + destruct (0 <=? count); [|congruence].
      destruct (struct_pack order fmt args) eqn:Hrest; simpl; [done|].
      intros [= <-]. by eapply IH.
Qed.

Lemma utf8_encode_raises (s : pystr) (e : exn) :
  utf8_encode s = Raise e → e = UnicodeEncodeError.
Proof.
  induction s as [|c s IH]; simpl; [done|].
  destruct (utf8_encode_char c) as [b|e'] eqn:Hc; simpl.
  - destruct (utf8_encode s); simpl; [done|]. intros [= <-]. by apply IH.
  - intros [= <-]. unfold utf8_encode_char in Hc.
    repeat match type of Hc with
           | context [if ?c then _ else _] => destruct c
           end; congruence.
Qed.

Lemma encode_kv_raises order (t : Z) (k v : pystr) (e : exn) :
  encode_kv order t k v = Raise e → e = StructError ∨ e = UnicodeEncodeError.
Proof.
  unfold encode_kv.
  destruct (encode_header order t (len k) (len v)) as [h|e1] eqn:Hh; simpl.
  2: { intros [= <-]. left. by eapply struct_pack_raises. }
  destruct (utf8_encode k) as [kb|e2] eqn:Hk; simpl.
  2: { intros [= <-]. right. by eapply utf8_encode_raises. }
  destruct (utf8_encode v) as [vb|e3] eqn:Hv; simpl.
  2: { intros [= <-]. right. by eapply utf8_encode_raises. }
  repeat match goal with
         | |- context [if ?c then _ else _] => destruct c
         end; simpl; try done; intros [= <-]; by left.
Qed.

(** X1. The header round trip: for a timestamp and two sizes that fit an
    unsigned 32-bit field, [encode_header] returns twelve bytes and
    [decode_header] of them returns the three numbers. *)
Theorem header_round_trip order (t ks vs : Z) :
  0 ≤ t ≤ UINT_MAX → 0 ≤ ks ≤ UINT_MAX → 0 ≤ vs ≤ UINT_MAX →
  ∃ h, encode_header order t ks vs = Ok h
       ∧ len h = 12
       ∧ decode_header order h = Ok (t, ks, vs).
Proof.
  intros Ht Hks Hvs. eexists. split; [by apply encode_header_ok|].
  split; [|by apply decode_header_pack].
  unfold len. by rewrite !length_app, !length_pack_I.
Qed.

Lemma header_round_trip_sample :
  ∃ h, encode_header Little 1700000000 6 11 = Ok h
       ∧ len h = 12
       ∧ decode_header Little h = Ok (1700000000, 6, 11).
Proof.
  apply (header_round_trip Little 1700000000 6 11); unfold UINT_MAX; lia.
Defined.

(** X2. [encode_kv] returns exactly when the timestamp and the numbers of
    characters of the key and of the value fit an unsigned 32-bit field
    and the key and the value can be encoded as UTF-8; when it raises,
    it raises [struct.error] or [UnicodeEncodeError]. *)
Theorem encode_kv_returns_iff order (t : Z) (k v : pystr) :
  ((∃ n data, encode_kv order t k v = Ok (n, data))
   ↔ (0 ≤ t ≤ UINT_MAX ∧ len k ≤ UINT_MAX ∧ len v ≤ UINT_MAX
      ∧ (∃ kb, utf8_encode k = Ok kb) ∧ (∃ vb, utf8_encode v = Ok vb)))
  ∧ ∀ e, encode_kv order t k v = Raise e →
         e = StructError ∨ e = UnicodeEncodeError.
Proof.
  split; [split|apply encode_kv_raises].
  - intros (n & data & (kb & vb & ? & ? & ? & ? & ? & _)%encode_kv_inv).
    eauto 10.
  - intros (Ht & Hlk & Hlv & [kb Hkb] & [vb Hvb]).
    eexists _, _. by apply (encode_kv_ok order t k v kb vb).
Qed.

(** X3. What [encode_kv] returns: the first component is
    [len(key) + len(value)], the header not counted; the bytes are
    twelve more than that, and their first twelve are the header of the
    timestamp and the two sizes. *)
Theorem encode_kv_shape order (t : Z) (k v : pystr) (n : Z) (data : bytes) :
  encode_kv order t k v = Ok (n, data) →
  n = len k + len v
  ∧ len data = 12 + n
  ∧ decode_header order (take 12 data) = Ok (t, len k, len v).
Proof.
  intros Henc. pose proof (encode_kv_length _ _ _ _ _ _ Henc) as Hlen.
  apply encode_kv_inv in Henc
    as (kb & vb & Hkb & Hvb & Ht & Hlk & Hlv & -> & ->).
  split; [done|]. split; [lia|].
  apply utf8_encode_length in Hkb, Hvb.
  pose proof (len_nonneg k). pose proof (len_nonneg v).
  unfold record_bytes. simpl. rewrite !(assoc_L (++)).
  rewrite <- (assoc_L (++) _ (take (length k) kb)).
  rewrite take_app_length' by (rewrite !length_app, !length_pack_I; done).
  rewrite <- !(assoc_L (++)).
  unfold len at 1 2. rewrite !length_take_le by done.
  apply decode_header_pack; unfold len in *; lia.
Qed.

Lemma encode_kv_shape_hamlet :
  ∃ n data,
    encode_kv Little 1000 (str "hamlet") (str "shakespeare") = Ok (n, data)
    ∧ n = len (str "hamlet") + len (str "shakespeare")
    ∧ len data = 12 + n
    ∧ decode_header Little (take 12 data)
      = Ok (1000, len (str "hamlet"), len (str "shakespeare")).
Proof.
  eexists _, _. split; [vm_compute; reflexivity|].
  apply (encode_kv_shape Little 1000 (str "hamlet") (str "shakespeare")).
  vm_compute. reflexivity.
Defined.

(** X4. The round trip of the codec holds for ASCII text and for nothing
    else: when [encode_kv] returns, [decode_kv] of the bytes returns the
    timestamp, the key and the value if and only if the key and the
    value are ASCII. *)
Theorem codec_round_trip_iff_ascii order (t : Z) (k v : pystr) (n : Z) (data : bytes) :
  encode_kv order t k v = Ok (n, data) →
  decode_kv order data = Ok (t, k, v) ↔ ascii k ∧ ascii v.
Proof.
  intros Henc. split.
  - by apply (decode_encode_kv_only_ascii order t k v n data).
  - intros [Hk Hv].
    pose proof Henc as (_ & _ & _ & _ & Ht & Hlk & Hlv & _)%encode_kv_inv.
    destruct (decode_encode_kv_ascii order t k v Hk Hv Ht Hlk Hlv)
      as (n' & data' & Henc' & Hdec).
    rewrite Henc in Henc'. by injection Henc' as -> ->.
Qed.

Lemma codec_round_trip_hamlet :
  ∃ n data,
    encode_kv Little 1000 (str "hamlet") (str "shakespeare") = Ok (n, data)
    ∧ (decode_kv Little data = Ok (1000, str "hamlet", str "shakespeare")
       ↔ ascii (str "hamlet") ∧ ascii (str "shakespeare")).
Proof.
  eexists _, _. split; [vm_compute; reflexivity|].
  eapply (codec_round_trip_iff_ascii Little 1000 (str "hamlet") (str "shakespeare")).
  vm_compute. reflexivity.
Defined.

(** X5. [decode_kv] checks the size of its buffer against the header: on
    a buffer whose first twelve bytes declare [ks] and [vs] and whose
    length is not [12 + ks + vs], longer or shorter, it raises
    [struct.error]. *)
Theorem decode_kv_size_mismatch order (data : bytes) (t ks vs : Z) :
  decode_header order (take 12 data) = Ok (t, ks, vs) →
  len data ≠ 12 + ks + vs →
  decode_kv order data = Raise StructError.
Proof. apply decode_kv_wrong_size. Qed.

Lemma decode_kv_size_mismatch_trailing_byte :
  let data := record_bytes Little
                (RawRecord 1000 (map byte_of_N (str "k")) (map byte_of_N (str "v")))
              ++ [x00] in
  decode_kv Little data = Raise StructError.
Proof.
  intros data. apply (decode_kv_size_mismatch Little data 1000 1 1).
  - vm_compute. reflexivity.
  - vm_compute. discriminate.
Defined.

(** X6. [decode_kv] of a whole record: the timestamp of the header and
    the UTF-8 decodings of the key bytes and of the value bytes, or the
    [UnicodeDecodeError] of the first of the two that is not UTF-8. *)
Theorem decode_kv_whole_record order (r : raw_record) :
  record_ok r →
  decode_kv order (record_bytes order r) =
  match utf8_decode (r_key r), utf8_decode (r_value r) with
  | Ok k, Ok v => Ok (r_tstamp r, k, v)
  | Raise e, _ => Raise e
  | Ok _, Raise e => Raise e
  end.
Proof.
  intros Hr. rewrite decode_kv_record by done.
  destruct (utf8_decode (r_key r)); simpl; [|done].
  by destruct (utf8_decode (r_value r)).
Qed.

Lemma decode_kv_whole_record_euro :
  decode_kv Little (record_bytes Little (RawRecord 1000 [xe2; x82; xac] [xff]))
  = match utf8_decode [xe2; x82; xac], utf8_decode [xff] with
    | Ok k, Ok v => Ok (1000, k, v)
    | Raise e, _ => Raise e
    | Ok _, Raise e => Raise e
    end.
Proof.
  apply (decode_kv_whole_record Little (RawRecord 1000 [xe2; x82; xac] [xff])).
  repeat split; vm_compute; discriminate.
Defined.

(** ** disk_store.py *)

(** X7. [get] never writes: whatever the key and the state, and whether
    it returns or raises, the disk and the object are after the call
    what they were before. *)
Theorem get_never_writes order (key : pystr) (w : world) :
  snd (DiskStorage_get order key w) = w.
Proof. apply get_state. Qed.

(** X8. A [set] that raises has changed nothing, file and index, and the
    exception is [struct.error] or [UnicodeEncodeError]: the record is
    encoded as a whole before the first byte is written. *)
Theorem failed_set_changes_nothing order (now : Z) (key value : pystr) (e : exn)
    (w w' : world) :
  DiskStorage_set order now key value w = (Raise e, w') →
  w' = w ∧ (e = StructError ∨ e = UnicodeEncodeError).
Proof.
  intros Hset. split; [by eapply set_cases_Raise|].
  rewrite set_cases in Hset.
  destruct (encode_kv order now key value) as [[n data]|e'] eqn:Henc; [done|].
  injection Hset as <- _. by eapply encode_kv_raises.
Qed.

Lemma failed_set_changes_nothing_clock :
  let w1 := snd (DiskStorage_set Little 1000 (str "k") (str "v") fresh_engine) in
  snd (DiskStorage_set Little 4294967296 (str "k") (str "v2") w1) = w1
  ∧ (StructError = StructError ∨ StructError = UnicodeEncodeError).
Proof.
  intros w1.
  apply (failed_set_changes_nothing Little 4294967296 (str "k") (str "v2")
           StructError w1).
  vm_compute. reflexivity.
Defined.

(** X9. Set then get: on an engine state, for a key that can be encoded,
    an ASCII value, sizes and a clock within 32 bits, [set(key, value)]
    returns and [get(key)] after it returns the value. *)
Theorem set_then_get_ascii order (w : world) (now : Z) (key value : pystr) (kb : bytes) :
  reachable order w →
  utf8_encode key = Ok kb → ascii value →
  0 ≤ now ≤ UINT_MAX → len key ≤ UINT_MAX → len value ≤ UINT_MAX →
  ∃ w', DiskStorage_set order now key value w = (Ok (), w')
        ∧ DiskStorage_get order key w' = (Ok value, w').
Proof.
  intros Hok%reachable_ok Hkb Hv Hnow Hlk Hlv.
  destruct (set_then_get order w now key value kb (map byte_of_N value) Hok Hkb)
    as (w' & Hset & _ & Hget); try done; [by apply utf8_encode_ascii|].
  exists w'. split; [done|]. rewrite Hget.
  rewrite firstn_all2 by (by rewrite length_map).
  by rewrite utf8_decode_ascii.
Qed.

Lemma set_then_get_hamlet :
  ∃ w', DiskStorage_set Little 1000 (str "hamlet") (str "shakespeare") fresh_engine
        = (Ok (), w')
        ∧ DiskStorage_get Little (str "hamlet") w' = (Ok (str "shakespeare"), w').
Proof.
  apply (set_then_get_ascii Little fresh_engine 1000 (str "hamlet")
           (str "shakespeare") (map byte_of_N (str "hamlet"))).
  - apply fresh_engine_reachable.
  - vm_compute. reflexivity.
  - repeat constructor.
  - unfold UINT_MAX. lia.
  - vm_compute. discriminate.
  - vm_compute. discriminate.
Defined.

(** X10. Set then get, whatever the text: on an engine state, when the
    key and the value can be encoded and the sizes and the clock are
    within 32 bits, [set(key, value)] returns and [get(key)] after it
    decodes the first [len(value)] bytes of the UTF-8 encoding of the
    value. *)
Theorem set_then_get_cut order (w : world) (now : Z) (key value : pystr)
    (kb vb : bytes) :
  reachable order w →
  utf8_encode key = Ok kb → utf8_encode value = Ok vb →
  0 ≤ now ≤ UINT_MAX → len key ≤ UINT_MAX → len value ≤ UINT_MAX →
  ∃ w', DiskStorage_set order now key value w = (Ok (), w')
        ∧ DiskStorage_get order key w'
          = (utf8_decode (take (length value) vb), w').
Proof.
  intros Hok%reachable_ok Hkb Hvb Hnow Hlk Hlv.
  destruct (set_then_get order w now key value kb vb Hok Hkb Hvb)
    as (w' & Hset & _ & Hget); try done.
  by exists w'.
Qed.

Lemma set_then_get_cut_euro :
  ∃ w', DiskStorage_set Little 1000 (str "price") [8364%N; 53%N] fresh_engine
        = (Ok (), w')
        ∧ DiskStorage_get Little (str "price") w'
          = (utf8_decode (take 2 [xe2; x82; xac; x35]), w')
        ∧ utf8_decode (take 2 [xe2; x82; xac; x35]) = Raise UnicodeDecodeError.
Proof.
  destruct (set_then_get_cut Little fresh_engine 1000 (str "price")
              [8364%N; 53%N] (map byte_of_N (str "price")) [xe2; x82; xac; x35])
    as (w' & Hset & Hget).
  - apply fresh_engine_reachable.
  - vm_compute. reflexivity.
  - vm_compute. reflexivity.
  - unfold UINT_MAX. lia.
  - vm_compute. discriminate.
  - vm_compute. discriminate.
  - exists w'. split; [exact Hset|]. split; [exact Hget|].
    vm_compute. reflexivity.
Defined.

(** X11. Every state of an engine is well shaped: the file object of the
    engine is open on the log file, the log file exists, and every entry
    of the index names the log file and lies inside it, with a value
    size and a value position that are not negative. *)
Theorem engine_state_well_shaped order (w : world) :
  reachable order w →
  h_name (self_file_handle (self w)) = self_file_id (self w)
  ∧ ∃ content,
      fs w !! self_file_id (self w) = Some content
      ∧ ∀ key e, self_keydir (self w) !! key = Some e →
          file_id e = self_file_id (self w)
          ∧ 0 ≤ value_sz e ∧ 0 ≤ value_pos e
          ∧ value_pos e + value_sz e ≤ len content.
Proof.
  intros (Hh & content & Hf & Hkd)%reachable_ok. split; [done|].
  exists content. split; [done|]. intros key e He. by apply Hkd in He.
Qed.

Lemma engine_state_well_shaped_hamlet :
  let w := snd (DiskStorage_set Little 1000 (str "hamlet") (str "shakespeare")
                  fresh_engine) in
  h_name (self_file_handle (self w)) = self_file_id (self w)
  ∧ ∃ content,
      fs w !! self_file_id (self w) = Some content
      ∧ ∀ key e, self_keydir (self w) !! key = Some e →
          file_id e = self_file_id (self w)
          ∧ 0 ≤ value_sz e ∧ 0 ≤ value_pos e
          ∧ value_pos e + value_sz e ≤ len content.
Proof.
  intros w. apply (engine_state_well_shaped Little w).
  apply (reach_set Little fresh_engine 1000 (str "hamlet") (str "shakespeare")
           (Ok ()) w).
  - apply fresh_engine_reachable.
  - vm_compute. reflexivity.
Defined.

(** X12. When [__init__] returns, the object names the file,
    [self.offset] is the size of the file, and the disk is the one it
    was given, but for a missing file, which is created empty. *)
Theorem init_ends_at_file_size (order : byteorder) (file_name : pystr) (d d' : disk)
    (o : DiskStorage) :
  DiskStorage_init order file_name d = (Ok o, d') →
  self_file_id o = file_name
  ∧ h_name (self_file_handle o) = file_name
  ∧ self_offset o = len (file_content d' file_name)
  ∧ d' = match d !! file_name with
         | Some _ => d
         | None => <[file_name := []]> d
         end.
Proof.
  intros ((Hh & _) & Hid & Hd & Hoff)%init_ok. simpl in Hh.
  split_and!; try done. by rewrite Hh.
Qed.

Lemma init_ends_at_file_size_one_record :
  let d : disk :=
    {[data_db := record_bytes Little
                   (RawRecord 1000 (map byte_of_N (str "hamlet"))
                      (map byte_of_N (str "shakespeare")))]} in
  ∃ o d', DiskStorage_init Little data_db d = (Ok o, d')
    ∧ self_file_id o = data_db
    ∧ h_name (self_file_handle o) = data_db
    ∧ self_offset o = len (file_content d' data_db)
    ∧ d' = match d !! data_db with
           | Some _ => d
           | None => <[data_db := []]> d
           end.
Proof.
  intros d. eexists _, _. split; [vm_compute; reflexivity|].
  apply (init_ends_at_file_size Little data_db d).
  vm_compute. reflexivity.
Defined.



(** X14. [set] only adds: whether it returns or raises, every key of the
    index is still in the index afterwards, every file of the disk
    still starts with the bytes it had, and the files other than the one
    the engine has open are untouched. *)
Theorem set_only_adds order (now : Z) (key value : pystr) (r : result ())
    (w w' : world) :
  DiskStorage_set order now key value w = (r, w') →
  (∀ k, is_Some (self_keydir (self w) !! k) → is_Some (self_keydir (self w') !! k))
  ∧ (∀ name, ∃ extra,
       file_content (fs w') name = file_content (fs w) name ++ extra)
  ∧ (∀ name, name ≠ h_name (self_file_handle (self w)) →
       fs w' !! name = fs w !! name).
Proof.
  rewrite set_cases.
  destruct (encode_kv order now key value) as [[n data]|e].
  - simpl. intros [= <- <-]. simpl. split_and!.
    + intros k Hk. destruct (decide (key = k)) as [->|Hne].
      * rewrite lookup_insert_eq. eauto.
      * by rewrite lookup_insert_ne.
    + intros name.
      destruct (decide (h_name (self_file_handle (self w)) = name)) as [<-|Hne].
      * exists data. unfold file_content at 1. by rewrite lookup_insert_eq.
      * exists []. unfold file_content.
        by rewrite lookup_insert_ne, app_nil_r.
    + intros name Hne. by rewrite lookup_insert_ne.
  - intros [= <- <-]. split_and!; [done| |done].
    intros name. exists []. by rewrite app_nil_r.
Qed.

Lemma set_only_adds_overwrite :
  let w1 := snd (DiskStorage_set Little 1000 (str "k") (str "v1") fresh_engine) in
  let w2 := snd (DiskStorage_set Little 1001 (str "k") (str "v2") w1) in
  (∀ k, is_Some (self_keydir (self w1) !! k) → is_Some (self_keydir (self w2) !! k))
  ∧ (∀ name, ∃ extra,
       file_content (fs w2) name = file_content (fs w1) name ++ extra)
  ∧ (∀ name, name ≠ h_name (self_file_handle (self w1)) →
       fs w2 !! name = fs w1 !! name).
Proof.
  intros w1 w2.
  apply (set_only_adds Little 1001 (str "k") (str "v2") (Ok ()) w1 w2).
  vm_compute. reflexivity.
Defined.

(** The run of the examples: [set("k", "v1")] then [set("k", "v2")] on a
    fresh engine. *)
Lemma overwrite_run :
  let w1 := snd (DiskStorage_set Little 1000 (str "k") (str "v1") fresh_engine) in
  let w2 := snd (DiskStorage_set Little 1001 (str "k") (str "v2") w1) in
  ascii_run Little data_db w2
    [RawRecord 1000 (map byte_of_N (str "k")) (map byte_of_N (str "v1"));
     RawRecord 1001 (map byte_of_N (str "k")) (map byte_of_N (str "v2"))].
Proof.
  intros w1 w2.
  apply (run_set Little data_db w1
           [RawRecord 1000 (map byte_of_N (str "k")) (map byte_of_N (str "v1"))]
           1001 (str "k") (str "v2") w2).
  - apply (run_set Little data_db fresh_engine [] 1000 (str "k") (str "v1") w1).
    + apply fresh_engine_ascii_run.
    + repeat constructor.
    + repeat constructor.
    + vm_compute. reflexivity.
  - repeat constructor.
  - repeat constructor.
  - vm_compute. reflexivity.
Qed.

(** X15. On a run on ASCII text (an engine built on a log of whole ASCII
    records, then [set] called with ASCII keys and values), every entry
    of the index names the log file and points at the bytes of the value
    of the last record of its key, and [get] of the key returns that
    value. *)
Theorem index_points_at_value_ascii order (file_name : pystr) (w : world)
    (rs : list raw_record) (key : pystr) (e : entry) :
  ascii_run order file_name w rs →
  self_keydir (self w) !! key = Some e →
  ∃ value,
    log_model rs ∅ !! key = Some value
    ∧ file_id e = file_name
    ∧ fst (file_read (fs w) (Handle (file_id e) (value_pos e)) (value_sz e))
      = map byte_of_N value
    ∧ DiskStorage_get order key w = (Ok value, w).
Proof.
  intros Hrun Hk.
  destruct (ascii_run_index order file_name w rs key e Hrun Hk)
    as (value & ? & ? & ? & _ & ?).
  by exists value.
Qed.

Lemma index_points_at_value_overwrite :
  let w1 := snd (DiskStorage_set Little 1000 (str "k") (str "v1") fresh_engine) in
  let w2 := snd (DiskStorage_set Little 1001 (str "k") (str "v2") w1) in
  let rs := [RawRecord 1000 (map byte_of_N (str "k")) (map byte_of_N (str "v1"));
             RawRecord 1001 (map byte_of_N (str "k")) (map byte_of_N (str "v2"))] in
  let e := Entry data_db 2 28 1001 in
  ∃ value,
    log_model rs ∅ !! str "k" = Some value
    ∧ file_id e = data_db
    ∧ fst (file_read (fs w2) (Handle (file_id e) (value_pos e)) (value_sz e))
      = map byte_of_N value
    ∧ DiskStorage_get Little (str "k") w2 = (Ok value, w2).
Proof.
  intros w1 w2 rs e.
  apply (index_points_at_value_ascii Little data_db w2 rs (str "k") e).
  - apply overwrite_run.
  - vm_compute. reflexivity.
Defined.

(** X16. On a run on ASCII text, [get] returns the value of the last
    record of the key in the log, and the empty string for a key that no
    record has. *)
Theorem get_returns_log_value_ascii order (file_name : pystr) (w : world)
    (rs : list raw_record) (key : pystr) :
  ascii_run order file_name w rs →
  DiskStorage_get order key w = (Ok (default [] (log_model rs ∅ !! key)), w).
Proof. apply ascii_run_get. Qed.

Lemma get_returns_log_value_reopened :
  let rs := [RawRecord 1000 (map byte_of_N (str "k")) (map byte_of_N (str "v1"));
             RawRecord 1001 (map byte_of_N (str "hamlet"))
               (map byte_of_N (str "shakespeare"));
             RawRecord 1002 (map byte_of_N (str "k")) (map byte_of_N (str "v2"))] in
  let d : disk := {[data_db := log_bytes Little rs]} in
  ∃ o, DiskStorage_init Little data_db d = (Ok o, d)
    ∧ DiskStorage_get Little (str "k") (World d o)
      = (Ok (default [] (log_model rs ∅ !! str "k")), World d o)
    ∧ log_model rs ∅ !! str "k" = Some (str "v2").
Proof.
  intros rs d. eexists. split; [vm_compute; reflexivity|]. split.
  - apply (get_returns_log_value_ascii Little data_db _ rs (str "k")).
    apply (run_open Little data_db d rs).
    + vm_compute. reflexivity.
    + repeat constructor; vm_compute; discriminate.
    + repeat constructor; vm_compute; reflexivity.
    + vm_compute. reflexivity.
  - vm_compute. reflexivity.
Defined.

(** X17. Persistence: on a run on ASCII text, a new engine can be built
    on the log file as it is, the construction leaves the disk as it
    was, and the index of the new engine is the index of the running
    one. *)
Theorem reopen_same_index_ascii order (file_name : pystr) (w : world)
    (rs : list raw_record) :
  ascii_run order file_name w rs →
  ∃ o, DiskStorage_init order file_name (fs w) = (Ok o, fs w)
    ∧ self_keydir o = self_keydir (self w)
    ∧ self_offset o = len (file_content (fs w) file_name).
Proof.
  intros Hrun.
  destruct (ascii_run_reopen order file_name w rs Hrun) as (o & Hinit & Hkd & _).
  exists o. split; [done|]. split; [done|].
  by apply init_ok in Hinit as (_ & _ & _ & ?).
Qed.

Lemma reopen_same_index_overwrite :
  let w1 := snd (DiskStorage_set Little 1000 (str "k") (str "v1") fresh_engine) in
  let w2 := snd (DiskStorage_set Little 1001 (str "k") (str "v2") w1) in
  ∃ o, DiskStorage_init Little data_db (fs w2) = (Ok o, fs w2)
    ∧ self_keydir o = self_keydir (self w2)
    ∧ self_offset o = len (file_content (fs w2) data_db).
Proof.
  intros w1 w2.
  apply (reopen_same_index_ascii Little data_db w2
           [RawRecord 1000 (map byte_of_N (str "k")) (map byte_of_N (str "v1"));
            RawRecord 1001 (map byte_of_N (str "k")) (map byte_of_N (str "v2"))]).
  apply overwrite_run.
Defined.

(** X18. The bracket accessors, last write wins: on a run on ASCII text,
    after [d[key] = v1] and [d[key] = v2] with ASCII key and values,
    [d[key]] returns [v2], and so does [d[key]] on a new engine built
    on the log file. *)
Theorem setitem_getitem_last_write order (file_name : pystr) (w w1 w2 : world)
    (rs : list raw_record) (now1 now2 : Z) (key v1 v2 : pystr) :
  ascii_run order file_name w rs →
  ascii key → ascii v1 → ascii v2 →
  DiskStorage_setitem order now1 key v1 w = (Ok (), w1) →
  DiskStorage_setitem order now2 key v2 w1 = (Ok (), w2) →
  DiskStorage_getitem order key w2 = (Ok v2, w2)
  ∧ ∃ o, DiskStorage_init order file_name (fs w2) = (Ok o, fs w2)
      ∧ DiskStorage_getitem order key (World (fs w2) o)
        = (Ok v2, World (fs w2) o).
Proof. unfold DiskStorage_setitem, DiskStorage_getitem. apply last_write_wins_ascii. Qed.

Lemma setitem_getitem_last_write_fresh :
  let w1 := snd (DiskStorage_setitem Little 1000 (str "k") (str "v1") fresh_engine) in
  let w2 := snd (DiskStorage_setitem Little 1001 (str "k") (str "v2") w1) in
  DiskStorage_getitem Little (str "k") w2 = (Ok (str "v2"), w2)
  ∧ ∃ o, DiskStorage_init Little data_db (fs w2) = (Ok o, fs w2)
      ∧ DiskStorage_getitem Little (str "k") (World (fs w2) o)
        = (Ok (str "v2"), World (fs w2) o).
Proof.
  intros w1 w2.
  apply (setitem_getitem_last_write Little data_db fresh_engine w1 w2 []
           1000 1001 (str "k") (str "v1") (str "v2")).
  - apply fresh_engine_ascii_run.
  - repeat constructor.
  - repeat constructor.
  - repeat constructor.
  - vm_compute. reflexivity.
  - vm_compute. reflexivity.
Defined.

(** X19. A cut log is refused when its whole records are ASCII: on a
    file made of whole ASCII records followed by the beginning of a
    record, cut in the header or short of the sizes the header declares,
    [__init__] raises [struct.error]. *)
Theorem truncated_ascii_log_refused (order : byteorder) (file_name : pystr)
    (d : disk) (rs : list raw_record) (partial : bytes) :
  d !! file_name = Some (log_bytes order rs ++ partial) →
  Forall record_ok rs → Forall ascii_record rs →
  partial ≠ [] →
  match decode_header order (take 12 partial) with
  | Ok (_, ks, vs) => len partial < 12 + ks + vs
  | Raise _ => True
  end →
  fst (DiskStorage_init order file_name d) = Raise StructError.
Proof. apply init_truncated_ascii_log. Qed.

Lemma truncated_ascii_log_refused_three_bytes :
  let rs := [RawRecord 1000 (map byte_of_N (str "hamlet"))
               (map byte_of_N (str "shakespeare"))] in
  let last := record_bytes Little
                (RawRecord 1001 (map byte_of_N (str "othello"))
                   (map byte_of_N (str "shakespeare"))) in
  let partial := take (length last - 3) last in
  fst (DiskStorage_init Little data_db
         {[data_db := log_bytes Little rs ++ partial]})
  = Raise StructError.
Proof.
  intros rs last partial.
  apply (truncated_ascii_log_refused Little data_db _ rs partial).
  - apply lookup_singleton_eq.
  - repeat constructor; vm_compute; discriminate.
  - repeat constructor; vm_compute; reflexivity.
  - vm_compute. discriminate.
  - vm_compute. reflexivity.
Defined.

Lemma dom_replay_index (file_name : pystr) (rs : list raw_record) :
  ∀ (start : Z) (keydir : gmap pystr entry),
  dom (replay_index file_name start rs keydir)
  = dom keydir ∪ list_to_set (map (λ r, text (r_key r)) rs).
Proof.
  induction rs as [|r rs IH]; intros start keydir; simpl.
  - by rewrite (right_id_L ∅ (∪)).
  - rewrite IH, dom_insert_L.
    rewrite (comm_L (∪) {[text (r_key r)]} (dom keydir)).
    by rewrite (assoc_L (∪)).
Qed.

(** X20. On a run on ASCII text, the keys of the index are the keys of
    the records of the log, no more and no less; when no two records
    have the same key, the index has as many entries as the log has
    records. *)
Theorem index_keys_ascii order (file_name : pystr) (w : world) (rs : list raw_record) :
  ascii_run order file_name w rs →
  dom (self_keydir (self w)) = list_to_set (map (λ r, text (r_key r)) rs)
  ∧ (NoDup (map (λ r, text (r_key r)) rs) →
     size (self_keydir (self w)) = length rs).
Proof.
  intros (_ & _ & _ & _ & _ & ->)%ascii_run_inv.
  assert (dom (replay_index file_name 0 rs ∅)
          = list_to_set (map (λ r, text (r_key r)) rs)) as Hdom
    by (by rewrite dom_replay_index, dom_empty_L, (left_id_L ∅ (∪))).
  split; [done|]. intros Hnodup.
  rewrite <- size_dom, Hdom, size_list_to_set by done.
  by rewrite length_map.
Qed.

Lemma index_keys_overwrite :
  let w1 := snd (DiskStorage_set Little 1000 (str "k") (str "v1") fresh_engine) in
  let w2 := snd (DiskStorage_set Little 1001 (str "k") (str "v2") w1) in
  let rs := [RawRecord 1000 (map byte_of_N (str "k")) (map byte_of_N (str "v1"));
             RawRecord 1001 (map byte_of_N (str "k")) (map byte_of_N (str "v2"))] in
  dom (self_keydir (self w2)) = list_to_set (map (λ r, text (r_key r)) rs)
  ∧ (NoDup (map (λ r, text (r_key r)) rs) →
     size (self_keydir (self w2)) = length rs).
Proof.
  intros w1 w2 rs. apply (index_keys_ascii Little data_db w2 rs).
  apply overwrite_run.
Defined.

Lemma utf8_decode_raises (data : bytes) (e : exn) :
  utf8_decode data = Raise e → e = UnicodeDecodeError.
Proof.
  remember (length data) as n eqn:Hn. revert data Hn.
  induction n as [n IH] using lt_wf_ind. intros [|b r] -> .
  - by simp utf8_decode.
  - rewrite utf8_decode_cons.
    destruct (utf8_decode_char (b :: r)) as [[c rest]|] eqn:Hstep;
      [|by intros [= <-]].
    destruct (utf8_decode rest) as [s'|e'] eqn:Hrest; [done|].
    simpl. intros [= <-].
    assert (length rest < length (b :: r))%nat as Hlt
      by (apply utf8_decode_char_step in Hstep as [(? & [= _ ->] & _)|?];
          simpl in *; lia).
    by eapply (IH _ Hlt rest).
Qed.

(** X21. Text that is not UTF-8 stops the construction: on a file made
    of whole ASCII records followed by a whole record whose key bytes or
    value bytes are not UTF-8, [__init__] raises [UnicodeDecodeError],
    whatever follows that record. *)
Theorem non_utf8_record_refused (order : byteorder) (file_name : pystr) (d : disk)
    (rs : list raw_record) (r : raw_record) (rest : bytes) (e : exn) :
  d !! file_name = Some (log_bytes order rs ++ record_bytes order r ++ rest) →
  Forall record_ok rs → Forall ascii_record rs →
  record_ok r →
  (k ← utf8_decode (r_key r); utf8_decode (r_value r)) = Raise e →
  fst (DiskStorage_init order file_name d) = Raise UnicodeDecodeError.
Proof.
  intros Hf Hok Hascii Hr Hdec. unfold DiskStorage_init.
  rewrite (init_world_existing _ _ _ Hf).
  set (w0 := World _ _).
  destruct (init_rounds_ascii_log order file_name rs w0 []
              (record_bytes order r ++ rest))
    as (h & Hh & _ & Hloop); try done.
  rewrite Hloop. clear Hloop. simpl. set (w1 := World _ _).
  pose proof (len_nonneg (r_key r)). pose proof (len_nonneg (r_value r)).
  pose proof Hr as (Ht & Hlk & Hlv).
  assert (fst (init_body order file_name w1) = Raise UnicodeDecodeError) as Hb.
  { pose proof (init_body_cases order file_name w1) as Hcases.
    simpl in Hcases. rewrite Hh in Hcases. unfold file_content in Hcases.
    rewrite Hf in Hcases. simpl in Hcases.
    replace (len [] + len (log_bytes order rs)) with (len (log_bytes order rs))
      in Hcases by (unfold len; simpl; lia).
    rewrite !drop_len_app in Hcases. specialize (Hcases (len_nonneg _)).
    assert (take 12 (record_bytes order r ++ rest)
            = pack_I order (r_tstamp r) ++ pack_I order (len (r_key r))
              ++ pack_I order (len (r_value r))) as Hhead.
    { unfold record_bytes. rewrite <- !(assoc_L (++)).
      rewrite (assoc_L (++) (pack_I order (r_tstamp r))).
      rewrite (assoc_L (++) (_ ++ _) (pack_I order (len (r_value r)))).
      rewrite take_app_length'; [by rewrite <- !(assoc_L (++))|].
      by rewrite !length_app, !length_pack_I. }
    rewrite Hhead, decode_header_pack in Hcases by lia.
    assert (take (Z.to_nat (12 + len (r_key r) + len (r_value r)))
              (record_bytes order r ++ rest) = record_bytes order r) as Hrec.
    { rewrite take_app_length'; [done|].
      pose proof (record_bytes_length order r) as Hlen. unfold len in *. lia. }
    rewrite Hrec, decode_kv_record in Hcases by done.
    destruct (utf8_decode (r_key r)) as [k|e1] eqn:Hk; simpl in *.
    - destruct (utf8_decode (r_value r)) as [v|e2] eqn:Hv; simpl in *; [done|].
      by rewrite (utf8_decode_raises _ _ Hv) in Hcases.
    - by rewrite (utf8_decode_raises _ _ Hk) in Hcases. }
  rewrite init_loop_step, init_cond_cases. simpl. rewrite Hf.
  replace (len [] + len (log_bytes order rs) <? _) with true.
  - destruct (init_body order file_name w1) as [[[]|e'] w2]; simpl in Hb; [done|].
    by injection Hb as ->.
  - symmetry. apply Z.ltb_lt. rewrite !len_app, record_bytes_length.
    pose proof (len_nonneg rest). unfold len at 1. simpl. lia.
Qed.

Lemma non_utf8_record_refused_latin1 :
  let rs := [RawRecord 1000 (map byte_of_N (str "hamlet"))
               (map byte_of_N (str "shakespeare"))] in
  let r := RawRecord 1001 (map byte_of_N (str "caf")) [x63; x61; x66; xe9] in
  fst (DiskStorage_init Little data_db
         {[data_db := log_bytes Little rs ++ record_bytes Little r ++ []]})
  = Raise UnicodeDecodeError.
Proof.
  intros rs r.
  apply (non_utf8_record_refused Little data_db _ rs r [] UnicodeDecodeError).
  - apply lookup_singleton_eq.
  - repeat constructor; vm_compute; discriminate.
  - repeat constructor; vm_compute; reflexivity.
  - repeat split; vm_compute; discriminate.
  - vm_compute. reflexivity.
Defined.

(** X22. One round of the loop of [__init__] on a whole record at
    [self.offset] whose key bytes and value bytes decode to [k] and [v]:
    the index gets, under [k], an entry with [value_sz = len(v)] and
    [value_pos = self.offset + 12 + len(k)], and [self.offset] moves on
    by [12 + len(k) + len(v)], counted in characters; the file is not
    written. *)
Theorem init_round_on_record order (file_name : pystr) (w : world)
    (pre post : bytes) (r : raw_record) (k v : pystr) :
  h_name (self_file_handle (self w)) = file_name →
  fs w !! file_name = Some (pre ++ record_bytes order r ++ post) →
  self_offset (self w) = len pre →
  record_ok r →
  utf8_decode (r_key r) = Ok k → utf8_decode (r_value r) = Ok v →
  ∃ w', init_body order file_name w = (Ok (), w')
    ∧ fs w' = fs w
    ∧ self_offset (self w') = self_offset (self w) + 12 + len k + len v
    ∧ self_keydir (self w')
      = <[k := Entry file_name (len v) (self_offset (self w) + 12 + len k)
                 (r_tstamp r)]> (self_keydir (self w)).
Proof.
  intros Hh Hf Hoff Hr Hk Hv.
  rewrite (init_body_at_record order file_name w pre post r k v) by done.
  eexists. split; [done|]. simpl. rewrite Hoff. split_and!; try done.
  do 2 f_equal. lia.
Qed.

Lemma init_round_on_record_e_acute :
  let r := RawRecord 1000 [xc3; xa9] (map byte_of_N (str "x")) in
  let w := init_world data_db {[data_db := record_bytes Little r]} in
  ∃ w', init_body Little data_db w = (Ok (), w')
    ∧ fs w' = fs w
    ∧ self_offset (self w') = self_offset (self w) + 12 + len [233%N] + len (str "x")
    ∧ self_keydir (self w')
      = <[[233%N] := Entry data_db (len (str "x"))
                       (self_offset (self w) + 12 + len [233%N])
                       (r_tstamp r)]> (self_keydir (self w)).
Proof.
  intros r w.
  apply (init_round_on_record Little data_db w [] [] r [233%N] (str "x")).
  - vm_compute. reflexivity.
  - vm_compute. reflexivity.
  - vm_compute. reflexivity.
  - repeat split; vm_compute; discriminate.
  - vm_compute. reflexivity.
  - vm_compute. reflexivity.
Defined.

(** X23. The index entry that [set] stores: on an engine state, after a
    [set(key, value)] that returns, the entry of the key names the log
    file, has [value_sz = len(value)], the timestamp of the call, and a
    [value_pos] that is the old size of the file plus
    [12 + len(key)], so that the entry ends where the file ends. *)
Theorem set_stores_entry order (w w' : world) (now : Z) (key value : pystr) :
  reachable order w →
  DiskStorage_set order now key value w = (Ok (), w') →
  ∃ e, self_keydir (self w') !! key = Some e
    ∧ file_id e = self_file_id (self w)
    ∧ value_sz e = len value
    ∧ tstamp e = now
    ∧ value_pos e = len (file_content (fs w) (self_file_id (self w))) + 12 + len key
    ∧ value_pos e + value_sz e = len (file_content (fs w') (self_file_id (self w))).
Proof.
  intros (Hh & old & Hf & _)%reachable_ok Hset.
  apply set_cases_Ok in Hset as (n & data & Henc & ->).
  apply encode_kv_length in Henc. simpl.
  rewrite lookup_insert_eq. eexists. split; [done|]. simpl.
  rewrite Hh. unfold file_content. rewrite lookup_insert_eq, Hf. simpl.
  rewrite len_app. split_and!; (done || lia).
Qed.

Lemma set_stores_entry_overwrite :
  let w1 := snd (DiskStorage_set Little 1000 (str "k") (str "v1") fresh_engine) in
  let w2 := snd (DiskStorage_set Little 1001 (str "k") (str "v2") w1) in
  ∃ e, self_keydir (self w2) !! str "k" = Some e
    ∧ file_id e = self_file_id (self w1)
    ∧ value_sz e = len (str "v2")
    ∧ tstamp e = 1001
    ∧ value_pos e = len (file_content (fs w1) (self_file_id (self w1))) + 12
                    + len (str "k")
    ∧ value_pos e + value_sz e = len (file_content (fs w2) (self_file_id (self w1))).
Proof.
  intros w1 w2.
  apply (set_stores_entry Little w1 w2 1001 (str "k") (str "v2")).
  - apply (reach_set Little fresh_engine 1000 (str "k") (str "v1") (Ok ()) w1).
    + apply fresh_engine_reachable.
    + vm_compute. reflexivity.
  - vm_compute. reflexivity.
Defined.
